(** * LlamaCPP adapter (llama_index/llms/llama_cpp.py)

    A shallow embedding of the [LlamaCPP] class: the artifact resolver of
    [__init__], the download routine [_download_url], and the four generation
    entry points [complete], [stream_complete], [chat] and [stream_chat].

    The Python code talks to four things it does not own: the file system
    ([os], [open]), the network ([requests]), the heap of dictionaries the
    caller passes in, and the llama.cpp engine.  The first three are modelled
    by an explicit [World]; the engine is a black box given by section
    variables.  Exceptions are values of [exn]; a computation that can raise
    returns a [result] together with the world it leaves behind (a raise does
    not undo earlier effects).

    Left out: what the code prints, the progress bar, and the callback
    decorators of the framework, none of which changes a result. *)

From Stdlib Require Import ZArith Ascii String SpecFloat.
From Stdlib.Strings Require Import Byte.
From stdpp Require Import gmap strings list.

Local Open Scope string_scope.
Local Open Scope Z_scope.

(** ** Python values and exceptions *)

(** The values that cross the adapter's interface as keyword options or as
    exception arguments.  A Python [float] is kept as its IEEE 754 datum. *)
#[local] Set Warnings "-register-all".
Inductive pyval :=
| PNone
| PBool (b : bool)
| PInt (z : Z)
| PFloat (f : spec_float)
| PStr (s : string)
| PList (l : list pyval).

(** A keyword dictionary ([Dict[str, Any]]). *)
Abbreviation kwargs := (gmap string pyval).

(** The exceptions that occur in the adapter and in the library calls it
    makes.  All but [KeyboardInterrupt] derive from Python's [Exception].
    The arguments of those the adapter raises itself are as in the source;
    the messages of the others are shortened. *)
Inductive exn :=
| ImportError (msg : string)
| ValueError (args : list pyval)
| TypeError (msg : string)
| IndexError (msg : string)
| OverflowError (msg : string)
| AssertionError
| FileNotFoundError (path : string)
| FileExistsError (path : string)
| NotADirectoryError (path : string)
| IsADirectoryError (path : string)
| RequestException (msg : string)
| EngineError (msg : string)
| KeyboardInterrupt.

(** [isinstance(e, Exception)]: what an [except Exception] clause catches. *)
Definition is_Exception (e : exn) : bool :=
  match e with
  | KeyboardInterrupt => false
  | _ => true
  end.

Inductive result (A : Type) :=
| Ok (a : A)
| Raise (e : exn).
Arguments Ok {A} a.
Arguments Raise {A} e.

Definition result_map {A B} (f : A → B) (r : result A) : result B :=
  match r with
  | Ok a => Ok (f a)
  | Raise e => Raise e
  end.

Definition is_Ok {A} (r : result A) : bool :=
  match r with Ok _ => true | Raise _ => false end.

(** ** Strings: [os.path] on POSIX and [int(str)] *)

Module PosixPath.

Definition sep : ascii := "/"%char.

Definition is_sep (c : ascii) : bool := bool_decide (c = sep).

(** [s == sep * len(s)] *)
Fixpoint all_sep (s : string) : bool :=
  match s with
  | EmptyString => true
  | String c r => is_sep c && all_sep r
  end.

(** [s.rstrip(sep)] *)
Fixpoint rstrip_sep (s : string) : string :=
  match s with
  | EmptyString => EmptyString
  | String c r =>
      match rstrip_sep r with
      | EmptyString => if is_sep c then EmptyString else String c EmptyString
      | r' => String c r'
      end
  end.

(** [i = p.rfind(sep) + 1; (p[:i], p[i:])], or [None] when [p] holds no
    separator (then [i = 0]). *)
Fixpoint rsplit_sep (p : string) : option (string * string) :=
  match p with
  | EmptyString => None
  | String c r =>
      match rsplit_sep r with
      | Some (h, t) => Some (String c h, t)
      | None => if is_sep c then Some (String c EmptyString, r) else None
      end
  end.

(** [os.path.basename] *)
Definition basename (p : string) : string :=
  match rsplit_sep p with
  | Some (_, t) => t
  | None => p
  end.

(** [os.path.dirname] *)
Definition dirname (p : string) : string :=
  let head := match rsplit_sep p with Some (h, _) => h | None => "" end in
  if bool_decide (head ≠ "") && negb (all_sep head) then rstrip_sep head
  else head.

Fixpoint ends_with_sep (s : string) : bool :=
  match s with
  | EmptyString => false
  | String c EmptyString => is_sep c
  | String _ r => ends_with_sep r
  end.

Definition starts_with_sep (s : string) : bool :=
  match s with
  | String c _ => is_sep c
  | EmptyString => false
  end.

(** One round of the loop of [os.path.join]. *)
Definition join_step (path b : string) : string :=
  if starts_with_sep b then b
  else if bool_decide (path = "") || ends_with_sep path then path +:+ b
  else path +:+ "/" +:+ b.

(** [os.path.join(a, *p)] *)
Definition join (a : string) (p : list string) : string :=
  foldl join_step a p.

End PosixPath.

Module PyInt.

(** The white space [int] strips from both ends.  A character stands for
    its Latin-1 code point, which is how the values of HTTP headers are
    decoded: tab to carriage return, space, and the two Latin-1 spaces
    U+0085 and U+00A0. *)
Definition is_space (c : ascii) : bool :=
  let n := Z.of_nat (nat_of_ascii c) in
  ((9 <=? n) && (n <=? 13)) || (n =? 32) || (n =? 133) || (n =? 160).

Definition digit_of (c : ascii) : option Z :=
  let n := Z.of_nat (nat_of_ascii c) in
  if (48 <=? n) && (n <=? 57) then Some (n - 48) else None.

Fixpoint lstrip (s : string) : string :=
  match s with
  | String c r => if is_space c then lstrip r else s
  | EmptyString => EmptyString
  end.

Fixpoint rstrip (s : string) : string :=
  match s with
  | EmptyString => EmptyString
  | String c r =>
      match rstrip r with
      | EmptyString => if is_space c then EmptyString else String c EmptyString
      | r' => String c r'
      end
  end.

(** Decimal digits, single underscores allowed between two digits. *)
Fixpoint digits (acc : Z) (after_digit : bool) (s : string) : option Z :=
  match s with
  | EmptyString => if after_digit then Some acc else None
  | String c r =>
      match digit_of c with
      | Some d => digits (10 * acc + d) true r
      | None =>
          if bool_decide (c = "_"%char) && after_digit
          then digits acc false r
          else None
      end
  end.

(** The literal read in base ten, sign included; [None] when it is not a
    valid literal. *)
Definition parse (s : string) : option Z :=
  match rstrip (lstrip s) with
  | String "+" r => digits 0 false r
  | String "-" r => Z.opp <$> digits 0 false r
  | body => digits 0 false body
  end.

Fixpoint count_digits (s : string) : nat :=
  match s with
  | EmptyString => O
  | String c r =>
      match digit_of c with
      | Some _ => S (count_digits r)
      | None => count_digits r
      end
  end.

(** The interpreter refuses literals of more than
    [sys.get_int_max_str_digits()] digits; zero means no limit. *)
Definition too_long (max_str_digits : nat) (s : string) : bool :=
  ((0 <? max_str_digits) && (max_str_digits <? count_digits s))%nat.

(** [int(s)] for a [str]; [None] stands for the [ValueError] Python raises. *)
Definition int_of_str (max_str_digits : nat) (s : string) : option Z :=
  if too_long max_str_digits s then None else parse s.

End PyInt.

(** ** The world outside the adapter *)

(** A reference to a dictionary object on the Python heap. *)
Abbreviation ref := positive.

(** An HTTP response as [requests.get(url, stream=True)] hands it over: the
    header block (names in lower case, as the case-insensitive dictionary of
    [requests] compares them) and the body as [iter_content] will deliver it,
    chunk by chunk, possibly cut short by a transport error. *)
Record Response := {
  headers : gmap string string;
  iter_content : list (list byte);
  iter_error : option exn;
}.

(** - [fs_files]: the paths at which a regular file is found, and what it
      holds;
    - [fs_dirs]: the paths at which a directory is found;
    - [net_log]: every URL requested so far, latest first;
    - [heap]: the dictionary objects, shared with the caller by reference.
    Paths are taken as the program writes them: two spellings of one entry
    (a trailing separator, [.] and [..], symbolic links) are not
    identified. *)
Record World := {
  fs_files : gmap string (list byte);
  fs_dirs : gset string;
  net_log : list string;
  heap : gmap ref kwargs;
}.

Definition with_files (f : gmap string (list byte)) (w : World) : World :=
  {| fs_files := f; fs_dirs := fs_dirs w; net_log := net_log w; heap := heap w |}.
Definition with_dirs (d : gset string) (w : World) : World :=
  {| fs_files := fs_files w; fs_dirs := d; net_log := net_log w; heap := heap w |}.
Definition with_net_log (l : list string) (w : World) : World :=
  {| fs_files := fs_files w; fs_dirs := fs_dirs w; net_log := l; heap := heap w |}.
Definition with_heap (h : gmap ref kwargs) (w : World) : World :=
  {| fs_files := fs_files w; fs_dirs := fs_dirs w; net_log := net_log w; heap := h |}.

(** Computations over a state [S] that may raise; [M] is the instance whose
    state is the world. *)
Definition ST (State A : Type) : Type := State → result A * State.

Definition ret {State A} (a : A) : ST State A := λ s, (Ok a, s).
Definition bind {State A B} (m : ST State A) (f : A → ST State B) : ST State B := λ s,
  match m s with
  | (Ok a, s') => f a s'
  | (Raise e, s') => (Raise e, s')
  end.

Notation "'let*' x ':=' m 'in' k" := (bind m (λ x, k))
  (at level 10, x binder, k at level 200).

Definition raise {State A} (e : exn) : ST State A := λ s, (Raise e, s).
Definition pass {State} : ST State unit := λ s, (Ok (), s).
Definition get {State} : ST State State := λ s, (Ok s, s).
Definition modify {State} (f : State → State) : ST State unit := λ s, (Ok (), f s).

Abbreviation M := (ST World).

(** *** File system *)

Module Os.

(** [os.path.exists] *)
Definition path_exists (p : string) : M bool := λ w,
  (Ok (bool_decide (p ∈ dom (fs_files w)) || bool_decide (p ∈ fs_dirs w)), w).

(** [open(p, "wb")]: the file is created, or emptied when it is there.  The
    empty path names nothing and a path that ends in a separator names a
    directory. *)
Definition open_wb (p : string) : M unit := λ w,
  if bool_decide (p = "") then (Raise (FileNotFoundError p), w)
  else if PosixPath.ends_with_sep p then (Raise (IsADirectoryError p), w)
  else if bool_decide (p ∈ fs_dirs w) then (Raise (IsADirectoryError p), w)
  else if bool_decide (PosixPath.dirname p ≠ "")
          && negb (bool_decide (PosixPath.dirname p ∈ fs_dirs w))
  then (Raise (FileNotFoundError p), w)
  else (Ok (), with_files (<[p := []]> (fs_files w)) w).

(** [file.write(chunk)] on the file opened at [p]. *)
Definition write (p : string) (chunk : list byte) : M unit := λ w,
  (Ok (), with_files (alter (λ old, (old ++ chunk)%list) p (fs_files w)) w).

(** [os.remove] *)
Definition remove (p : string) : M unit := λ w,
  if bool_decide (p ∈ dom (fs_files w))
  then (Ok (), with_files (delete p (fs_files w)) w)
  else if bool_decide (p ∈ fs_dirs w) then (Raise (IsADirectoryError p), w)
  else (Raise (FileNotFoundError p), w).

(** The path itself and the directories above it. *)
Fixpoint ancestors (fuel : nat) (p : string) : list string :=
  match fuel with
  | O => []
  | S fuel =>
      if bool_decide (p = "") then []
      else p :: (if bool_decide (PosixPath.dirname p = p) then []
                 else ancestors fuel (PosixPath.dirname p))
  end.

(** [os.makedirs(p, exist_ok=True)]: the directory and the missing ones
    above it are created; a regular file in the way is an error. *)
Definition makedirs (p : string) : M unit := λ w,
  if bool_decide (p = "") then (Raise (FileNotFoundError p), w)
  else
    let chain := ancestors (S (String.length p)) p in
    match List.find (λ a, bool_decide (a ∈ dom (fs_files w))) chain with
    | Some a =>
        (Raise (if bool_decide (a = p) then FileExistsError a
                else NotADirectoryError a), w)
    | None => (Ok (), with_dirs (list_to_set chain ∪ fs_dirs w) w)
    end.

End Os.

(** *** Heap of dictionaries *)

Definition deref (l : ref) (w : World) : kwargs := default ∅ (heap w !! l).

(** [d or {}] for an optional dictionary: [None] and the empty dictionary are
    both falsy, and then a new dictionary object is made. *)
Definition dict_or_new (d : option ref) : M ref := λ w,
  let fresh_dict :=
    let l := fresh (dom (heap w)) in (Ok l, with_heap (<[l := ∅]> (heap w)) w) in
  match d with
  | None => fresh_dict
  | Some l => if bool_decide (deref l w = ∅) then fresh_dict else (Ok l, w)
  end.

(** [d.update({k1: v1, k2: v2, ...})], in place. *)
Definition dict_update (l : ref) (items : list (string * pyval)) : M unit := λ w,
  (Ok (), with_heap (<[l := foldl (λ d kv, <[kv.1 := kv.2]> d) (deref l w) items]> (heap w)) w).

(** *** Network *)

Definition ascii_lower (c : ascii) : ascii :=
  let n := nat_of_ascii c in
  if ((65 <=? n) && (n <=? 90))%nat then ascii_of_nat (n + 32) else c.

Fixpoint str_lower (s : string) : string :=
  match s with
  | EmptyString => EmptyString
  | String c r => String (ascii_lower c) (str_lower r)
  end.

(** [r.headers.get(name)] *)
Definition headers_get (r : Response) (name : string) : option string :=
  headers r !! str_lower name.

(** *** Arithmetic *)

(** [n / d] on two [int]s is a [float]; Python raises [OverflowError] when
    the correctly rounded quotient is beyond the largest double, that is from
    [2^1024 - 2^970] on. *)
Definition true_div_overflows (n d : Z) : bool :=
  Z.abs d * (2 ^ 1024 - 2 ^ 970) <=? Z.abs n.

(** ** Engine and framework data *)

(** What llama.cpp returns: a completion (or a chunk of one) carries a list
    of choices, each with its text. *)
Record CompletionChoice := {
  choice_text : string;
  choice_index : Z;
  finish_reason : option string;
}.

Record Completion := {
  completion_id : string;
  completion_model : string;
  choices : list CompletionChoice;
}.

(** The engine answers a call with one completion, or with an iterator over
    chunks, which may end in an exception. *)
Inductive EngineOutput :=
| Whole (response : Completion)
| Chunks (response_iter : list Completion) (iter_err : option exn).

(** Modelled from the spec: [llama_index.llms.base.CompletionResponse], whose
    declaration is not part of this file's source.  "Completion response:
    text produced so far, incremental delta (streaming only), and the raw
    engine response." *)
Record CompletionResponse := {
  text : string;
  raw : option Completion;
  delta : option string;
}.

(** Modelled from the spec: [llama_index.llms.base.MessageRole] and
    [ChatMessage].  "Chat message: role + content". *)
Inductive MessageRole := SYSTEM | USER | ASSISTANT | FUNCTION.

Record ChatMessage := {
  role : MessageRole;
  content : option string;
}.

(** Modelled from the spec: [llama_index.llms.base.ChatResponse], a
    chat-shaped response with the "same text/delta/raw fields, framed as an
    assistant reply rather than a raw completion". *)
Record ChatResponse := {
  message : ChatMessage;
  chat_raw : option Completion;
  chat_delta : option string;
}.

(** Modelled from the spec: [completion_response_to_chat_response] of
    [llama_index.llms.generic_utils], which is not part of this file's
    source: "repackage the result(s) as chat-shaped responses (same
    text/delta/raw fields, framed as an assistant reply rather than a raw
    completion)". *)
Definition completion_response_to_chat_response
    (completion_response : CompletionResponse) : ChatResponse :=
  {| message := {| role := ASSISTANT; content := Some (text completion_response) |};
     chat_raw := raw completion_response;
     chat_delta := delta completion_response |}.

(** Modelled from the spec: [llama_index.llms.base.LLMMetadata]; the
    accessor "reports configured context window, maximum output tokens, and
    the resolved model path". *)
Record LLMMetadata := {
  meta_context_window : Z;
  meta_num_output : Z;
  meta_model_name : option string;
}.

(** What a generator does when it is run to its end: the values it yields,
    then a normal stop or an exception.  A consumer that stops early sees a
    prefix of [yielded]. *)
Record Generator (A : Type) := {
  yielded : list A;
  raised : option exn;
}.
Arguments yielded {A} _.
Arguments raised {A} _.

(** Modelled from the spec: [stream_completion_response_to_chat_response],
    the element-wise counterpart of the function above. *)
Definition stream_completion_response_to_chat_response
    (completion_response_gen : Generator CompletionResponse) : Generator ChatResponse :=
  {| yielded := completion_response_to_chat_response <$> yielded completion_response_gen;
     raised := raised completion_response_gen |}.

Definition DEFAULT_LLAMA_CPP_MODEL : string :=
  "https://huggingface.co/TheBloke/Llama-2-13B-chat-GGML/resolve"
  +:+ "/main/llama-2-13b-chat.ggmlv3.q4_0.bin".

(** The generator [gen] inside [stream_complete], started with the text
    accumulated so far.  Indexing the empty list of choices raises. *)
Fixpoint gen (text : string) (response_iter : list Completion)
    (iter_err : option exn) : Generator CompletionResponse :=
  match response_iter with
  | [] => {| yielded := []; raised := iter_err |}
  | response :: rest =>
      match choices response with
      | [] => {| yielded := []; raised := Some (IndexError "list index out of range") |}
      | choice :: _ =>
          let delta := choice_text choice in
          let text := text +:+ delta in
          let later := gen text rest iter_err in
          {| yielded := {| text := text; raw := Some response; delta := Some delta |}
                        :: yielded later;
             raised := raised later |}
      end
  end.

(** The deltas of a run of responses, put end to end. *)
Definition delta_text (r : CompletionResponse) : string := default "" (delta r).

Definition concat_deltas (rs : list CompletionResponse) : string :=
  foldr (λ r acc, delta_text r +:+ acc) "" rs.

(** ** The class [LlamaCPP] *)

(** The arguments of the constructor; the two dictionaries are passed by
    reference.  ([callback_manager] only feeds the framework's
    instrumentation and is left out.) *)
Record InitArgs := {
  arg_model_url : string;
  arg_model_path : option string;
  arg_temperature : spec_float;
  arg_max_new_tokens : Z;
  arg_context_window : Z;
  arg_messages_to_prompt : option (list ChatMessage → string);
  arg_completion_to_prompt : option (string → string);
  arg_generate_kwargs : option ref;
  arg_model_kwargs : option ref;
  arg_verbose : bool;
}.

Section LlamaCPP.

(** What the network answers to [requests.get(url, stream=True)]. *)
Variable remote : string → result Response.
(** [sys.get_int_max_str_digits()], zero where the interpreter sets no
    limit. *)
Variable max_str_digits : nat.
(** Whether [from llama_cpp import Llama] succeeds. *)
Variable llama_cpp_installed : bool.
(** The directory [llama_index.utils.get_cache_dir] designates. *)
Variable cache_root : string.
(** The llama.cpp engine: loading a model from a path (the engine sees the
    file stored there) and calling a loaded model. *)
Variable Engine : Type.
Variable Llama_load : string → option (list byte) → kwargs → result Engine.
Variable Llama_call : Engine → string → kwargs → result EngineOutput * Engine.
(** [llama_index.llms.generic_utils.messages_to_prompt], the default
    formatter. *)
Variable generic_messages_to_prompt : list ChatMessage → string.

Record LlamaCPP := {
  model_url : string;
  model_path : option string;
  temperature : spec_float;
  max_new_tokens : Z;
  context_window : Z;
  messages_to_prompt : list ChatMessage → string;
  completion_to_prompt : string → string;
  generate_kwargs : kwargs;
  model_kwargs : kwargs;
  verbose : bool;
  _model : Engine;
}.

(** *** Library calls *)

(** [requests.get(url, stream=True)] *)
Definition requests_get (url : string) : M Response := λ w,
  (remote url, with_net_log (url :: net_log w) w).

(** [from llama_cpp import Llama], with the [ImportError] replaced by the
    adapter's own. *)
Definition import_llama_cpp : M unit :=
  if llama_cpp_installed then pass
  else raise (ImportError
    ("Could not import llama_cpp library."
     +:+ "Please install llama_cpp with `pip install llama-cpp-python`."
     +:+ "See the full installation guide for GPU support at "
     +:+ "`https://github.com/abetlen/llama-cpp-python`")).

(** [Llama(model_path=model_path, **model_kwargs)]: a key of the dictionary
    that repeats the explicit keyword is a [TypeError] of the call. *)
Definition Llama (model_path : string) (model_kwargs : ref) : M Engine := λ w,
  let kw := deref model_kwargs w in
  if bool_decide ("model_path" ∈ dom kw)
  then (Raise (TypeError "got multiple values for keyword argument 'model_path'"), w)
  else (Llama_load model_path (fs_files w !! model_path) kw, w).

(** Modelled from the spec: [llama_index.utils.get_cache_dir], which is not
    part of this file's source: "cache root is an external shared
    location, created on demand". *)
Definition get_cache_dir : M string :=
  let* present := Os.path_exists cache_root in
  let* _ := (if present then pass else Os.makedirs cache_root) in
  ret cache_root.

(** *** [_download_url] *)

(** [for chunk in tqdm(r.iter_content(chunk_size=chunk_size), ...):
    file.write(chunk)]; the chunks are those of the response, and [tqdm]
    hands them on as they come. *)
Fixpoint write_chunks (model_path : string) (chunks : list (list byte))
    (iter_err : option exn) : M unit :=
  match chunks with
  | [] => match iter_err with Some e => raise e | None => pass end
  | chunk :: rest =>
      let* _ := Os.write model_path chunk in
      write_chunks model_path rest iter_err
  end.

(** [content_length or "0"]: [None] and the empty string are falsy. *)
Definition or_zero (content_length : option string) : string :=
  match content_length with
  | None | Some EmptyString => "0"
  | Some h => h
  end.

(** [int(s)] *)
Definition py_int (s : string) : M Z :=
  match PyInt.int_of_str max_str_digits s with
  | Some n => ret n
  | None => raise (ValueError [PStr "int(): invalid literal or too many digits"])
  end.

(** The size the response announces, when [int] accepts the header. *)
Definition reported_size (r : Response) : option Z :=
  PyInt.int_of_str max_str_digits (or_zero (headers_get r "Content-Length")).

(** [total_size < 1000 * 1000], raising the content error. *)
Definition check_total_size (content_length : option string) (total_size : Z) : M unit :=
  if total_size <? 1000 * 1000
  then raise (ValueError [PStr "Content should be at least 1 MB, but is only";
                          from_option PStr PNone content_length;
                          PStr "bytes"])
  else pass.

(** The block under [with open(model_path, "wb") as file:]. *)
Definition write_response (r : Response) (model_path : string) : M unit :=
  let* _ := Os.open_wb model_path in
  let content_length := headers_get r "Content-Length" in
  let* total_size := py_int (or_zero content_length) in
  let* _ := check_total_size content_length total_size in
  (* print("total size (MB):", round(total_size / 1000 / 1000, 2)) *)
  let* _ := (if true_div_overflows total_size 1000
             then raise (OverflowError "integer division result too large for a float")
             else pass) in
  write_chunks model_path (iter_content r) (iter_error r).

(** The body of the [try] block (without its last statement,
    [completed = True]). *)
Definition download_try (model_url model_path : string) : M unit :=
  let* r := requests_get model_url in
  write_response r model_path.

(** The whole routine.  An [Exception] raised by the body is caught and
    printed; any other exception is still pending when the [finally]
    block runs.  Either way [completed] is false, the block removes the
    file and raises, and what it raises replaces a pending exception. *)
Definition _download_url (model_url model_path : string) : M unit := λ w,
  (* try: ... completed = True *)
  let '(body, w) := download_try model_url model_path w in
  let completed := is_Ok body in
  (* except Exception as e: print("Error downloading model:", e) *)
  let pending :=
    match body with
    | Raise e => if is_Exception e then None else Some e
    | Ok _ => None
    end in
  (* finally: *)
  if negb completed then
    (let* _ := Os.remove model_path in
     raise (ValueError [PStr "Download incomplete."])) w
  else
    match pending with
    | Some e => (Raise e, w)
    | None => (Ok (), w)
    end.

(** *** [__init__] *)

(** The path the model is looked for when none is given. *)
Definition cached_model_path (cache_dir model_url : string) : string :=
  let model_name := PosixPath.basename model_url in
  PosixPath.join cache_dir ["models"; model_name].

(** [super().__init__(...)], the constructor of the pydantic base class: it
    stores the fields, and the instance gets its own copy of each of the two
    dictionaries. *)
Definition super_init (a : InitArgs) (model_path : string)
    (messages_to_prompt : list ChatMessage → string)
    (completion_to_prompt : string → string)
    (generate_kwargs model_kwargs : ref) (_model : Engine) : M LlamaCPP := λ w,
  (Ok {| model_url := arg_model_url a;
         model_path := Some model_path;
         temperature := arg_temperature a;
         max_new_tokens := arg_max_new_tokens a;
         context_window := arg_context_window a;
         messages_to_prompt := messages_to_prompt;
         completion_to_prompt := completion_to_prompt;
         generate_kwargs := deref generate_kwargs w;
         model_kwargs := deref model_kwargs w;
         verbose := arg_verbose a;
         _model := _model |}, w).

(** The block under [if not os.path.exists(model_path):]. *)
Definition download_to_cache (model_url model_path : string) : M unit :=
  let* _ := Os.makedirs (PosixPath.dirname model_path) in
  let* _ := _download_url model_url model_path in
  let* present := Os.path_exists model_path in
  if present then pass else raise AssertionError.

(** The [if model_path is not None: ... else: ...] statement of
    [__init__]: the path of the model and the engine loaded from it. *)
Definition resolve_model (a : InitArgs) (model_kwargs : ref) : M (string * Engine) :=
  match arg_model_path a with
  | Some model_path =>
      let* present := Os.path_exists model_path in
      if negb present then
        raise (ValueError
          [PStr ("Provided model path does not exist. "
                 +:+ "Please check the path or provide a model_url to download.")])
      else
        let* _model := Llama model_path model_kwargs in
        ret (model_path, _model)
  | None =>
      let* cache_dir := get_cache_dir in
      let model_path := cached_model_path cache_dir (arg_model_url a) in
      let* present := Os.path_exists model_path in
      let* _ := (if negb present
                 then download_to_cache (arg_model_url a) model_path
                 else pass) in
      let* _model := Llama model_path model_kwargs in
      ret (model_path, _model)
  end.

Definition __init__ (a : InitArgs) : M LlamaCPP :=
  let* _ := import_llama_cpp in
  let* model_kwargs := dict_or_new (arg_model_kwargs a) in
  let* _ := dict_update model_kwargs
              [("n_ctx", PInt (arg_context_window a));
               ("verbose", PBool (arg_verbose a))] in
  (* check if model is cached *)
  let* '(model_path, _model) := resolve_model a model_kwargs in
  let messages_to_prompt :=
    default generic_messages_to_prompt (arg_messages_to_prompt a) in
  let completion_to_prompt :=
    default (λ x, x) (arg_completion_to_prompt a) in
  let* generate_kwargs := dict_or_new (arg_generate_kwargs a) in
  let* _ := dict_update generate_kwargs
              [("temperature", PFloat (arg_temperature a));
               ("max_tokens", PInt (arg_max_new_tokens a))] in
  super_init a model_path messages_to_prompt completion_to_prompt
    generate_kwargs model_kwargs _model.

(** The path [__init__] settles on. *)
Definition resolved_path (a : InitArgs) : string :=
  match arg_model_path a with
  | Some model_path => model_path
  | None => cached_model_path cache_root (arg_model_url a)
  end.

(** *** Generation *)

Definition metadata (self : LlamaCPP) : LLMMetadata :=
  {| meta_context_window := context_window self;
     meta_num_output := max_new_tokens self;
     meta_model_name := model_path self |}.

Definition set_generate_kwargs (kw : kwargs) (self : LlamaCPP) : LlamaCPP :=
  {| model_url := model_url self; model_path := model_path self;
     temperature := temperature self; max_new_tokens := max_new_tokens self;
     context_window := context_window self;
     messages_to_prompt := messages_to_prompt self;
     completion_to_prompt := completion_to_prompt self;
     generate_kwargs := kw; model_kwargs := model_kwargs self;
     verbose := verbose self; _model := _model self |}.

Definition set_model (e : Engine) (self : LlamaCPP) : LlamaCPP :=
  {| model_url := model_url self; model_path := model_path self;
     temperature := temperature self; max_new_tokens := max_new_tokens self;
     context_window := context_window self;
     messages_to_prompt := messages_to_prompt self;
     completion_to_prompt := completion_to_prompt self;
     generate_kwargs := generate_kwargs self; model_kwargs := model_kwargs self;
     verbose := verbose self; _model := e |}.

(** [self.generate_kwargs.update({key: value})] *)
Definition generate_kwargs_update (key : string) (value : pyval) : ST LlamaCPP unit :=
  modify (λ self, set_generate_kwargs (<[key := value]> (generate_kwargs self)) self).

(** [self._model(prompt=prompt, **self.generate_kwargs)]: a ["prompt"] key
    in the dictionary is a [TypeError] of the call; otherwise the engine
    runs and moves to its next state. *)
Definition call_model (prompt : string) : ST LlamaCPP EngineOutput := λ self,
  if bool_decide ("prompt" ∈ dom (generate_kwargs self))
  then (Raise (TypeError "got multiple values for keyword argument 'prompt'"), self)
  else
    let '(response, engine) := Llama_call (_model self) prompt (generate_kwargs self) in
    (response, set_model engine self).

Definition complete (prompt : string) : ST LlamaCPP CompletionResponse :=
  let* _ := generate_kwargs_update "stream" (PBool false) in
  let* self := get in
  let prompt := completion_to_prompt self prompt in
  let* response := call_model prompt in
  match response with
  | Whole response =>
      match choices response with
      | choice :: _ =>
          ret {| text := choice_text choice; raw := Some response; delta := None |}
      | [] => raise (IndexError "list index out of range")
      end
  | Chunks _ _ => raise (TypeError "'generator' object is not subscriptable")
  end.

(** The generator is returned unstarted; here it is given by what it does
    when consumed.  Iterating over a single completion (a dictionary)
    yields its keys, and subscripting a key with ["choices"] raises. *)
Definition stream_complete (prompt : string)
    : ST LlamaCPP (Generator CompletionResponse) :=
  let* _ := generate_kwargs_update "stream" (PBool true) in
  let* self := get in
  let prompt := completion_to_prompt self prompt in
  let* response_iter := call_model prompt in
  match response_iter with
  | Chunks response_iter iter_err => ret (gen "" response_iter iter_err)
  | Whole _ =>
      ret {| yielded := [];
             raised := Some (TypeError "string indices must be integers") |}
  end.

Definition chat (messages : list ChatMessage) : ST LlamaCPP ChatResponse :=
  let* self := get in
  let prompt := messages_to_prompt self messages in
  let* completion_response := complete prompt in
  ret (completion_response_to_chat_response completion_response).

Definition stream_chat (messages : list ChatMessage)
    : ST LlamaCPP (Generator ChatResponse) :=
  let* self := get in
  let prompt := messages_to_prompt self messages in
  let* completion_response := stream_complete prompt in
  ret (stream_completion_response_to_chat_response completion_response).

End LlamaCPP.

Arguments model_url {Engine} _.
Arguments model_path {Engine} _.
Arguments temperature {Engine} _.
Arguments max_new_tokens {Engine} _.
Arguments context_window {Engine} _.
Arguments messages_to_prompt {Engine} _.
Arguments completion_to_prompt {Engine} _.
Arguments generate_kwargs {Engine} _.
Arguments model_kwargs {Engine} _.
Arguments verbose {Engine} _.
Arguments _model {Engine} _.
Arguments set_generate_kwargs {Engine} kw self.
Arguments set_model {Engine} e self.
Arguments metadata {Engine} self.
Arguments generate_kwargs_update {Engine} key value _.
Arguments call_model {Engine} Llama_call prompt _.
Arguments complete {Engine} Llama_call prompt _.
Arguments stream_complete {Engine} Llama_call prompt _.
Arguments chat {Engine} Llama_call messages _.
Arguments stream_chat {Engine} Llama_call messages _.
Arguments Llama {Engine} Llama_load model_path model_kwargs _.
Arguments super_init {Engine} a model_path messages_to_prompt completion_to_prompt
  generate_kwargs model_kwargs _model _.
Arguments resolve_model remote max_str_digits cache_root {Engine} Llama_load
  a model_kwargs _.
Arguments __init__ remote max_str_digits llama_cpp_installed cache_root {Engine}
  Llama_load generic_messages_to_prompt a _.

(** ** A small instance *)

(** A world with a cache directory, a network with three addresses, and a toy
    engine that counts its calls: it echoes the prompt as a single
    completion, or streams three chunks. *)
Module Toy.

Definition w0 : World :=
  {| fs_files := ∅;
     fs_dirs := {["/"; "/tmp"; "/tmp/llama_index"; "/tmp/llama_index/models"]};
     net_log := [];
     heap := ∅ |}.

(** The same machine before anything was cached: no cache directory yet. *)
Definition w_fresh : World :=
  {| fs_files := ∅; fs_dirs := {["/"; "/tmp"]}; net_log := []; heap := ∅ |}.

(** [lying.bin] is in the cache, and the caller holds three dictionaries:
    a model dictionary with a stale [n_ctx], an empty one, and a generation
    dictionary. *)
Definition w_cached : World :=
  {| fs_files := {["/tmp/llama_index/models/lying.bin" := [x41; x42; x43]]};
     fs_dirs := {["/"; "/tmp"; "/tmp/llama_index"; "/tmp/llama_index/models"]};
     net_log := [];
     heap := {[1%positive := {["n_ctx" := PInt 512; "seed" := PInt 7]};
               2%positive := ∅;
               3%positive := {["stop" := PList [PStr "###"]]}]} |}.

Definition response (content_length : option string) (body : list (list byte))
    : Response :=
  {| headers := match content_length with
                | Some h => {["content-length" := h]}
                | None => ∅
                end;
     iter_content := body;
     iter_error := None |}.

(** [small.bin] is ten bytes and says so; [lying.bin] is three bytes and
    announces two million; any other address cannot be reached. *)
Definition remote (url : string) : result Response :=
  if bool_decide (url = "http://h/small.bin")
  then Ok (response (Some "10") [[x30; x31; x32; x33; x34; x35; x36; x37; x38; x39]])
  else if bool_decide (url = "http://h/lying.bin")
  then Ok (response (Some "2000000") [[x41; x42; x43]])
  else Raise (RequestException "connection refused").

(** A second network, whose [small.bin] announces ten bytes as well but
    delivers a different body. *)
Definition remote_other_body (url : string) : result Response :=
  if bool_decide (url = "http://h/small.bin")
  then Ok (response (Some "10") [[x41]; [x42; x43]])
  else remote url.

Definition one_choice (s : string) : Completion :=
  {| completion_id := "cmpl-0"; completion_model := "toy";
     choices := [{| choice_text := s; choice_index := 0; finish_reason := None |}] |}.

Definition Llama_load (model_path : string) (file : option (list byte))
    (kw : kwargs) : result nat :=
  match file with
  | Some _ => Ok 0%nat
  | None => Raise (EngineError "failed to load model")
  end.

Definition Llama_call (calls : nat) (prompt : string) (kw : kwargs)
    : result EngineOutput * nat :=
  (match kw !! "stream" with
   | Some (PBool true) =>
       Ok (Chunks [one_choice "Hel"; one_choice "lo"; one_choice "!"] None)
   | _ => Ok (Whole (one_choice ("echo: " +:+ prompt)))
   end, S calls).

Definition contents (messages : list ChatMessage) : string :=
  foldr (λ m acc, default "" (content m) +:+ acc) "" messages.

Definition self0 : LlamaCPP nat :=
  {| model_url := DEFAULT_LLAMA_CPP_MODEL;
     model_path := Some "/tmp/llama_index/models/m.bin";
     temperature := S754_zero false;
     max_new_tokens := 256;
     context_window := 3900;
     messages_to_prompt := contents;
     completion_to_prompt := λ p, "Q: " +:+ p;
     generate_kwargs := {["max_tokens" := PInt 256]};
     model_kwargs := ∅;
     verbose := true;
     _model := 0%nat |}.

Definition args (url : string) (path : option string) (gk mk : option ref)
    : InitArgs :=
  {| arg_model_url := url;
     arg_model_path := path;
     arg_temperature := S754_zero false;
     arg_max_new_tokens := 256;
     arg_context_window := 3900;
     arg_messages_to_prompt := None;
     arg_completion_to_prompt := None;
     arg_generate_kwargs := gk;
     arg_model_kwargs := mk;
     arg_verbose := true |}.

End Toy.

(** More of the toy instance: networks that fail in other ways, a world with
    a file left over at the target path, and engines that misbehave. *)
Module ToyMore.

Definition announced (content_length : string) (body : list (list byte))
    (iter_error : option exn) : Response :=
  {| headers := {["content-length" := content_length]};
     iter_content := body;
     iter_error := iter_error |}.

(** Two million bytes announced, one chunk sent, then a keyboard
    interrupt. *)
Definition remote_interrupted (url : string) : result Response :=
  Ok (announced "2000000" [[x41; x42]] (Some KeyboardInterrupt)).

(** Two million bytes announced, two chunks sent, then the connection
    breaks. *)
Definition remote_cut (url : string) : result Response :=
  Ok (announced "2000000" [[x41; x42]; [x43]]
        (Some (RequestException "connection broken"))).

(** A header that is not a number. *)
Definition remote_garbled (url : string) : result Response :=
  Ok (announced "1 MB" [[x41; x42]] None).

(** A well-behaved answer (the body is kept short). *)
Definition remote_good (url : string) : result Response :=
  Ok (announced "1000000" [[x47; x47]; [x55; x46]] None).

(** An older file sits where [unreachable.bin] would be downloaded to. *)
Definition w_stale : World :=
  {| fs_files := {["/tmp/llama_index/models/unreachable.bin" := [x6f; x6c; x64]]};
     fs_dirs := {["/"; "/tmp"; "/tmp/llama_index"; "/tmp/llama_index/models"]};
     net_log := [];
     heap := ∅ |}.

(** The caller's model dictionary names a model file of its own. *)
Definition w_clash : World :=
  with_heap {[1%positive := {["model_path" := PStr "/other.bin"]}]} Toy.w_cached.

Definition no_choice : Completion :=
  {| completion_id := "cmpl-1"; completion_model := "toy"; choices := [] |}.

(** A loader that refuses every file. *)
Definition Llama_load_refusing (model_path : string) (file : option (list byte))
    (kw : kwargs) : result nat :=
  Raise (EngineError "not a model file").

(** An engine that fails on every call. *)
Definition Llama_call_failing (calls : nat) (prompt : string) (kw : kwargs)
    : result EngineOutput * nat :=
  (Raise (EngineError "out of memory"), S calls).

(** An engine whose completions carry no choice, and whose stream has such
    a chunk in second place. *)
Definition Llama_call_no_choice (calls : nat) (prompt : string) (kw : kwargs)
    : result EngineOutput * nat :=
  (match kw !! "stream" with
   | Some (PBool true) =>
       Ok (Chunks [Toy.one_choice "a"; no_choice; Toy.one_choice "b"] None)
   | _ => Ok (Whole no_choice)
   end, S calls).

(** An instance whose generation options hold a ["prompt"] entry. *)
Definition self_prompt_key : LlamaCPP nat :=
  set_generate_kwargs {["prompt" := PStr "again"]} Toy.self0.

End ToyMore.

(** ** Vocabulary of the statements *)

(** [os.path.exists], as a proposition. *)
Definition exists_in (p : string) (w : World) : Prop :=
  p ∈ dom (fs_files w) ∨ p ∈ fs_dirs w.

(** [open(p, "wb")] will succeed. *)
Definition can_open (p : string) (w : World) : Prop :=
  p ≠ "" ∧ PosixPath.ends_with_sep p = false ∧ (p ∉ fs_dirs w)
  ∧ (PosixPath.dirname p = "" ∨ PosixPath.dirname p ∈ fs_dirs w).

(** No regular file stands where [os.makedirs(p)] needs a directory. *)
Definition can_makedirs (p : string) (w : World) : Prop :=
  p ≠ "" ∧ Forall (λ d, d ∉ dom (fs_files w)) (Os.ancestors (S (String.length p)) p).

(** Two worlds agree on a component. *)
Definition same {X} (f : World → X) : relation World := λ w w', f w' = f w.

(** Directories are only added. *)
Definition more_dirs : relation World := λ w w', fs_dirs w ⊆ fs_dirs w'.

(** Every file but the one at [p] is as it was. *)
Definition off_target (p : string) : relation World := λ w w',
  ∀ q, q ≠ p → fs_files w' !! q = fs_files w !! q.

(** Nothing was fetched and no file was written. *)
Definition quiet : relation World := λ w w',
  same net_log w w' ∧ same fs_files w w' ∧ more_dirs w w'.

(** From a world where [P] holds, [m] leads to an [R]-related world,
    whether it returns or raises. *)
Definition frames {A} (P : World → Prop) (R : relation World) (m : M A) : Prop :=
  ∀ w, P w → R w (m w).2.

Definition always : World → Prop := λ _, True.

(** Components of the world that a change of another component leaves
    alone. *)
Class IgnoresFiles {X} (f : World → X) : Prop :=
  ignores_files : ∀ x w, f (with_files x w) = f w.
Class IgnoresDirs {X} (f : World → X) : Prop :=
  ignores_dirs : ∀ x w, f (with_dirs x w) = f w.
Class IgnoresNet {X} (f : World → X) : Prop :=
  ignores_net : ∀ x w, f (with_net_log x w) = f w.
Class IgnoresHeap {X} (f : World → X) : Prop :=
  ignores_heap : ∀ x w, f (with_heap x w) = f w.

(** * Properties *)

(** ** Strings *)

Lemma str_app_cons c s t : String c s +:+ t = String c (s +:+ t).
Proof. reflexivity. Qed.

Lemma str_app_nil_r s : s +:+ "" = s.
Proof. induction s as [|c s IH]; [done|]. by rewrite str_app_cons, IH. Qed.

Lemma str_app_assoc s t u : (s +:+ t) +:+ u = s +:+ t +:+ u.
Proof. induction s as [|c s IH]; [done|]. by rewrite !str_app_cons, IH. Qed.

(** ** The monad *)

Lemma bind_Ok {S A B} (m : ST S A) (f : A → ST S B) s a s' :
  m s = (Ok a, s') → bind m f s = f a s'.
Proof. unfold bind. by intros ->. Qed.

Lemma bind_Raise {S A B} (m : ST S A) (f : A → ST S B) s e s' :
  m s = (Raise e, s') → bind m f s = (Raise e, s').
Proof. unfold bind. by intros ->. Qed.

Lemma bind_inv_Ok {S A B} (m : ST S A) (f : A → ST S B) s b s' :
  bind m f s = (Ok b, s') → ∃ a s1, m s = (Ok a, s1) ∧ f a s1 = (Ok b, s').
Proof. unfold bind. destruct (m s) as [[a|e] s1]; [eauto|done]. Qed.


(** A property of the world that holds after [m] and that what follows
    keeps, holds at the end. *)
Lemma bind_post {S A B} (Q : S → Prop) (m : ST S A) (f : A → ST S B) s :
  Q (m s).2 → (∀ a s1, Q s1 → Q (f a s1).2) → Q (bind m f s).2.
Proof. unfold bind. intros Hm Hf. destruct (m s) as [[a|e] s1]; simpl in *; auto. Qed.

Lemma bind_pass {S B} (f : unit → ST S B) s : bind pass f s = f () s.
Proof. reflexivity. Qed.

(** ** Streaming *)

Lemma gen_text_prefix t cs err i r :
  yielded (gen t cs err) !! i = Some r →
  text r = t +:+ concat_deltas (take (S i) (yielded (gen t cs err))).
Proof.
  revert t i. induction cs as [|c cs IH]; intros t i; simpl; [done|].
  destruct (choices c) as [|choice rest]; simpl; [done|].
  destruct i as [|i]; simpl.
  - intros [= <-]. simpl. unfold delta_text; simpl. by rewrite str_app_nil_r.
  - intros Hr. rewrite (IH _ _ Hr). by rewrite str_app_assoc.
Qed.

Lemma gen_yields_chunks t cs err i r :
  yielded (gen t cs err) !! i = Some r →
  ∃ chunk choice rest,
    cs !! i = Some chunk ∧ choices chunk = choice :: rest
    ∧ delta r = Some (choice_text choice) ∧ raw r = Some chunk.
Proof.
  revert t i. induction cs as [|c cs IH]; intros t i; simpl; [done|].
  destruct (choices c) as [|choice rest] eqn:Hc; simpl; [done|].
  destruct i as [|i]; simpl.
  - intros [= <-]. by exists c, choice, rest.
  - apply IH.
Qed.

Lemma gen_all_chunks t cs err :
  Forall (λ chunk, choices chunk ≠ []) cs →
  length (yielded (gen t cs err)) = length cs ∧ raised (gen t cs err) = err.
Proof.
  intros Hall. revert t. induction Hall as [|c cs Hc _ IH]; intros t; simpl; [done|].
  destruct (choices c) as [|choice rest]; [done|]. simpl.
  destruct (IH (t +:+ choice_text choice)) as [-> ->]. done.
Qed.

Section Generation.

Context {Engine : Type}.
Variable Llama_call : Engine → string → kwargs → result EngineOutput * Engine.

(** C1.  Run to its end, the generator returned by [stream_complete]
    yields responses each of whose [text] is the concatenation, in order,
    of the [delta]s yielded up to and including it; so the [text] of the
    last one is the concatenation of all the deltas.  Each [delta] is the
    text of the first choice of the chunk kept in [raw]. *)
Theorem stream_complete_text_is_concat_of_deltas
    (self self' : LlamaCPP Engine) (prompt : string)
    (g : Generator CompletionResponse) :
  stream_complete Llama_call prompt self = (Ok g, self') →
  (∀ i r, yielded g !! i = Some r →
          text r = concat_deltas (take (S i) (yielded g)))
  ∧ (∀ r, last (yielded g) = Some r → text r = concat_deltas (yielded g))
  ∧ (∀ i r, yielded g !! i = Some r →
            ∃ chunk choice rest,
              raw r = Some chunk ∧ choices chunk = choice :: rest
              ∧ delta r = Some (choice_text choice)).
Proof.
  unfold stream_complete, bind, generate_kwargs_update, modify, get, ret.
  destruct (call_model _ _ _) as [[[response|cs err]|e] s]; intros [= <- <-];
    simpl; [done|].
  assert (∀ i r, yielded (gen "" cs err) !! i = Some r →
                 text r = concat_deltas (take (S i) (yielded (gen "" cs err))))
    as Hprefix by (intros i r Hr; apply (gen_text_prefix "" cs err i r Hr)).
  split; [done|]. split.
  - intros r Hlast. rewrite last_lookup in Hlast.
    rewrite (Hprefix _ _ Hlast). f_equal. apply take_ge. lia.
  - intros i r Hr.
    destruct (gen_yields_chunks "" cs err i r Hr) as (chunk & choice & rest & H).
    exists chunk, choice, rest. tauto.
Qed.

(** C2.  [chat] is [complete] on the formatted messages and nothing else:
    it ends in the state [complete] ends in, raises what [complete]
    raises, and otherwise returns the response of [complete] repackaged,
    that is an assistant message carrying its text, with its raw field. *)
Theorem chat_is_complete_on_formatted_messages
    (self : LlamaCPP Engine) (messages : list ChatMessage) :
  let completion := complete Llama_call (messages_to_prompt self messages) self in
  chat Llama_call messages self
  = (result_map completion_response_to_chat_response completion.1, completion.2)
  ∧ ∀ completion_response,
      let chat_response := completion_response_to_chat_response completion_response in
      role (message chat_response) = ASSISTANT
      ∧ content (message chat_response) = Some (text completion_response)
      ∧ chat_raw chat_response = raw completion_response.
Proof.
  simpl. split; [|done].
  unfold chat, bind at 1, get. simpl.
  unfold bind at 1.
  by destruct (complete Llama_call _ self) as [[r|e] s].
Qed.

(** C3.  When the engine, called with the shaped prompt and the generation
    options with [stream] set to [False], answers with a completion that
    has a first choice, [complete] returns that choice's text as it is,
    together with the completion as the raw response. *)
Theorem complete_returns_first_choice_text
    (self : LlamaCPP Engine) (prompt : string)
    (response : Completion) (choice : CompletionChoice)
    (rest : list CompletionChoice) (engine' : Engine) :
  "prompt" ∉ dom (generate_kwargs self) →
  Llama_call (_model self) (completion_to_prompt self prompt)
    (<["stream" := PBool false]> (generate_kwargs self))
  = (Ok (Whole response), engine') →
  choices response = choice :: rest →
  complete Llama_call prompt self
  = (Ok {| text := choice_text choice; raw := Some response; delta := None |},
     set_model engine'
       (set_generate_kwargs (<["stream" := PBool false]> (generate_kwargs self)) self)).
Proof.
  intros Hkey Hcall Hchoices.
  unfold complete, bind, generate_kwargs_update, modify, get, call_model. simpl.
  rewrite bool_decide_eq_false_2.
  2: { rewrite dom_insert_L, not_elem_of_union, not_elem_of_singleton. done. }
  rewrite Hcall. simpl. by rewrite Hchoices.
Qed.

End Generation.

Lemma stream_complete_text_witness :
  let g := gen "" [Toy.one_choice "Hel"; Toy.one_choice "lo"; Toy.one_choice "!"] None in
  let self' := set_model 1%nat
                 (set_generate_kwargs
                    (<["stream" := PBool true]> (generate_kwargs Toy.self0)) Toy.self0) in
  stream_complete Toy.Llama_call "hi" Toy.self0 = (Ok g, self')
  ∧ (text <$> yielded g) = ["Hel"; "Hello"; "Hello!"]
  ∧ (∀ i r, yielded g !! i = Some r →
            text r = concat_deltas (take (S i) (yielded g)))
  ∧ (∀ r, last (yielded g) = Some r → text r = concat_deltas (yielded g))
  ∧ (∀ i r, yielded g !! i = Some r →
            ∃ chunk choice rest,
              raw r = Some chunk ∧ choices chunk = choice :: rest
              ∧ delta r = Some (choice_text choice)).
Proof.
  intros g self'. split; [reflexivity|]. split; [reflexivity|].
  exact (stream_complete_text_is_concat_of_deltas
           Toy.Llama_call Toy.self0 self' "hi" g eq_refl).
Defined.

Lemma complete_returns_first_choice_witness :
  let response := Toy.one_choice "echo: Q: hi" in
  let kw := <["stream" := PBool false]> (generate_kwargs Toy.self0) in
("prompt" ∉ dom (generate_kwargs Toy.self0))
  ∧ Toy.Llama_call 0%nat "Q: hi" kw = (Ok (Whole response), 1%nat)
  ∧ complete Toy.Llama_call "hi" Toy.self0
    = (Ok {| text := "echo: Q: hi"; raw := Some response; delta := None |},
       set_model 1%nat (set_generate_kwargs kw Toy.self0)).
Proof.
  intros response kw.
  assert ("prompt" ∉ dom (generate_kwargs Toy.self0)) as Hkey
    by (apply (bool_decide_eq_false_1 _); vm_compute; reflexivity).
  split; [exact Hkey|]. split; [reflexivity|].
  apply (complete_returns_first_choice_text Toy.Llama_call Toy.self0 "hi"
           (Toy.one_choice "echo: Q: hi")
           {| choice_text := "echo: Q: hi"; choice_index := 0; finish_reason := None |}
           [] 1%nat Hkey); reflexivity.
Defined.

(** ** Frame conditions *)

#[export] Instance net_log_ignores_files : IgnoresFiles net_log.
Proof. by intros ??. Qed.
#[export] Instance net_log_ignores_dirs : IgnoresDirs net_log.
Proof. by intros ??. Qed.
#[export] Instance net_log_ignores_heap : IgnoresHeap net_log.
Proof. by intros ??. Qed.
#[export] Instance fs_files_ignores_dirs : IgnoresDirs fs_files.
Proof. by intros ??. Qed.
#[export] Instance fs_files_ignores_net : IgnoresNet fs_files.
Proof. by intros ??. Qed.
#[export] Instance fs_files_ignores_heap : IgnoresHeap fs_files.
Proof. by intros ??. Qed.
#[export] Instance fs_dirs_ignores_files : IgnoresFiles fs_dirs.
Proof. by intros ??. Qed.
#[export] Instance fs_dirs_ignores_net : IgnoresNet fs_dirs.
Proof. by intros ??. Qed.
#[export] Instance fs_dirs_ignores_heap : IgnoresHeap fs_dirs.
Proof. by intros ??. Qed.
#[export] Instance heap_ignores_files : IgnoresFiles heap.
Proof. by intros ??. Qed.
#[export] Instance heap_ignores_dirs : IgnoresDirs heap.
Proof. by intros ??. Qed.
#[export] Instance heap_ignores_net : IgnoresNet heap.
Proof. by intros ??. Qed.

#[export] Instance same_preorder {X} (f : World → X) : PreOrder (same f).
Proof. split; [by intros ? | intros ???; unfold same; congruence]. Qed.

#[export] Instance more_dirs_preorder : PreOrder more_dirs.
Proof. split; unfold more_dirs; [by intros ? | intros ???; set_solver]. Qed.

#[export] Instance quiet_preorder : PreOrder quiet.
Proof.
  split.
  - intros w. by repeat split.
  - intros w1 w2 w3 (?&?&?) (?&?&?). repeat split; by etrans.
Qed.

Lemma same_dirs_more_dirs w w' : same fs_dirs w w' → more_dirs w w'.
Proof. unfold same, more_dirs. by intros ->. Qed.

Lemma exists_in_quiet p w w' : exists_in p w → quiet w w' → exists_in p w'.
Proof.
  unfold exists_in, quiet, same, more_dirs. intros [?|?] (_ & -> & ?); set_solver.
Qed.

Section Frames.

Context {A B : Type} (P : World → Prop) (R : relation World) `{!PreOrder R}.

Lemma frames_bind (m : M A) (f : A → M B) :
  (∀ w w', P w → R w w' → P w') →
  frames P R m → (∀ a, frames P R (f a)) → frames P R (bind m f).
Proof.
  intros Hstable Hm Hf w HP. unfold bind.
  specialize (Hm w HP). destruct (m w) as [[a|e] w1]; simpl in *; [|done].
  etrans; [exact Hm|]. apply Hf. by eapply Hstable.
Qed.

Lemma frames_ret (a : A) : frames P R (ret a).
Proof. by intros w _. Qed.

Lemma frames_raise (e : exn) : frames P R (raise (A:=A) e).
Proof. by intros w _. Qed.

Lemma frames_weaken (P' : World → Prop) (R' : relation World) (m : M A) :
  (∀ w, P w → P' w) → (∀ w w', R' w w' → R w w') →
  frames P' R' m → frames P R m.
Proof. intros HP HR Hm w Hw. apply HR, Hm, HP, Hw. Qed.

End Frames.

Lemma frames_pass P R `{!PreOrder R} : frames P R pass.
Proof. by intros w _. Qed.

Lemma frames_quiet {A} P (m : M A) :
  frames P (same net_log) m → frames P (same fs_files) m → frames P more_dirs m →
  frames P quiet m.
Proof. intros H1 H2 H3 w HP. repeat split; [apply H1|apply H2|apply H3]; done. Qed.

Lemma always_stable (R : relation World) w w' : always w → R w w' → always w'.
Proof. done. Qed.

(** The library calls, grouped by the one component they touch. *)

Ltac prim_frames :=
  intros ? _; unfold same; simpl;
  repeat case_match; simpl;
  rewrite ?ignores_files, ?ignores_dirs, ?ignores_net, ?ignores_heap; done.

Section Primitives.

Context {X : Type} (f : World → X).

Lemma frames_path_exists p : frames always (same f) (Os.path_exists p).
Proof. prim_frames. Qed.

Lemma frames_open_wb `{!IgnoresFiles f} p : frames always (same f) (Os.open_wb p).
Proof. unfold Os.open_wb. prim_frames. Qed.

Lemma frames_write `{!IgnoresFiles f} p chunk : frames always (same f) (Os.write p chunk).
Proof. unfold Os.write. prim_frames. Qed.

Lemma frames_remove `{!IgnoresFiles f} p : frames always (same f) (Os.remove p).
Proof. unfold Os.remove. prim_frames. Qed.

Lemma frames_makedirs `{!IgnoresDirs f} p : frames always (same f) (Os.makedirs p).
Proof. unfold Os.makedirs. prim_frames. Qed.

Lemma frames_dict_or_new `{!IgnoresHeap f} d : frames always (same f) (dict_or_new d).
Proof. unfold dict_or_new. prim_frames. Qed.

Lemma frames_dict_update `{!IgnoresHeap f} l items :
  frames always (same f) (dict_update l items).
Proof. unfold dict_update. prim_frames. Qed.

Lemma frames_requests_get `{!IgnoresNet f} remote url :
  frames always (same f) (requests_get remote url).
Proof. unfold requests_get. prim_frames. Qed.

Lemma frames_import_llama_cpp installed :
  frames always (same f) (import_llama_cpp installed).
Proof. unfold import_llama_cpp. destruct installed; prim_frames. Qed.

Lemma frames_Llama {Engine} (Llama_load : string → option (list byte) → kwargs → result Engine)
    model_path model_kwargs :
  frames always (same f) (Llama Llama_load model_path model_kwargs).
Proof. unfold Llama. prim_frames. Qed.

Lemma frames_py_int max_str_digits s : frames always (same f) (py_int max_str_digits s).
Proof. unfold py_int. destruct (PyInt.parse s); prim_frames. Qed.

Lemma frames_check_total_size h n : frames always (same f) (check_total_size h n).
Proof. unfold check_total_size. destruct (n <? _); prim_frames. Qed.

End Primitives.

Lemma makedirs_more_dirs p : frames always more_dirs (Os.makedirs p).
Proof.
  intros w _. unfold Os.makedirs, more_dirs.
  repeat case_match; simpl; set_solver.
Qed.

(** ** The download routine *)

Lemma world_eta w :
  {| fs_files := fs_files w; fs_dirs := fs_dirs w;
     net_log := net_log w; heap := heap w |} = w.
Proof. by destruct w. Qed.

Lemma open_wb_Ok p w :
  can_open p w →
  Os.open_wb p w = (Ok (), with_files (<[p := []]> (fs_files w)) w).
Proof.
  intros (Hp & Hend & Hnd & Hparent). unfold Os.open_wb.
  rewrite (bool_decide_eq_false_2 (p = "")), Hend by done.
  rewrite bool_decide_eq_false_2 by done.
  destruct Hparent as [->|Hin]; [done|].
  by rewrite (bool_decide_eq_true_2 (_ ∈ _)), andb_false_r.
Qed.

Lemma open_wb_inv p w u w' :
  Os.open_wb p w = (Ok u, w') → w' = with_files (<[p := []]> (fs_files w)) w.
Proof. unfold Os.open_wb. repeat case_match; congruence. Qed.

Lemma open_wb_Raise p w e w' : Os.open_wb p w = (Raise e, w') → w' = w.
Proof. unfold Os.open_wb. repeat case_match; congruence. Qed.

Lemma write_chunks_spec p chunks err w old :
  fs_files w !! p = Some old →
  write_chunks p chunks err w
  = (match err with Some e => Raise e | None => Ok () end,
     with_files (<[p := (old ++ concat chunks)%list]> (fs_files w)) w).
Proof.
  revert w old. induction chunks as [|chunk chunks IH]; intros w old Hold; simpl.
  - rewrite app_nil_r, insert_id by done.
    unfold with_files. rewrite world_eta. by destruct err.
  - unfold bind, Os.write. simpl.
    erewrite IH; last first.
    { simpl. rewrite lookup_alter_eq, Hold. done. }
    simpl. f_equal. unfold with_files. simpl. f_equal.
    rewrite <- (assoc_L (++)).
    apply map_eq. intros k. destruct (decide (k = p)) as [->|Hne].
    + by rewrite !lookup_insert_eq.
    + by rewrite !lookup_insert_ne, lookup_alter_ne.
Qed.

Section Download.

Variable remote : string → result Response.
Variable max_str_digits : nat.

Lemma frames_write_chunks {X} (f : World → X) `{!IgnoresFiles f} p chunks err :
  frames always (same f) (write_chunks p chunks err).
Proof.
  induction chunks as [|chunk chunks IH]; simpl.
  - destruct err; [apply frames_raise | apply frames_pass]; apply _.
  - apply frames_bind; [apply _|done|by apply frames_write|done].
Qed.

Lemma frames_write_response {X} (f : World → X) `{!IgnoresFiles f} r p :
  frames always (same f) (write_response max_str_digits r p).
Proof.
  unfold write_response.
  apply frames_bind; [apply _|done|by apply frames_open_wb|intros _].
  apply frames_bind; [apply _|done|by apply frames_py_int|intros n].
  apply frames_bind; [apply _|done|by apply frames_check_total_size|intros _].
  apply frames_bind; [apply _|done| |intros _; by apply frames_write_chunks].
  destruct (true_div_overflows n 1000); [apply frames_raise | apply frames_pass]; apply _.
Qed.

Lemma frames_download_try {X} (f : World → X) `{!IgnoresFiles f, !IgnoresNet f}
    url p :
  frames always (same f) (download_try remote max_str_digits url p).
Proof.
  unfold download_try.
  apply frames_bind; [apply _|done|by apply frames_requests_get|intros r].
  by apply frames_write_response.
Qed.

Lemma frames_download_url {X} (f : World → X) `{!IgnoresFiles f, !IgnoresNet f}
    url p :
  frames always (same f) (_download_url remote max_str_digits url p).
Proof.
  intros w _. unfold _download_url.
  pose proof (frames_download_try f url p w I) as Htry.
  destruct (download_try remote max_str_digits url p w) as [[[]|e] w1]; simpl in *.
  - done.
  - etrans; [exact Htry|].
    assert (frames always (same f)
              (let* _ := Os.remove p in
               raise (A:=unit) (ValueError [PStr "Download incomplete."]))) as Hfin.
    { apply frames_bind; [apply _|done|by apply frames_remove|intros _].
      apply frames_raise; apply _. }
    apply Hfin. done.
Qed.

(** The routine asks the network once, whatever happens next. *)
Lemma download_url_net_log url p w :
  net_log (_download_url remote max_str_digits url p w).2 = url :: net_log w.
Proof.
  unfold _download_url, download_try, bind at 1, requests_get.
  set (w0 := with_net_log (url :: net_log w) w).
  assert (∀ m : M unit, frames always (same net_log) m →
                        net_log (m w0).2 = url :: net_log w) as Hkeep.
  { intros m Hm. by rewrite (Hm w0 I). }
  destruct (remote url) as [r|e]; simpl.
  - pose proof (Hkeep _ (frames_write_response net_log r p)) as Hw.
    destruct (write_response max_str_digits r p w0) as [[[]|e] w1]; simpl in *; [done|].
    pose proof (frames_remove net_log p w1 I) as Hrm. unfold same in Hrm.
    unfold bind. destruct (Os.remove p w1) as [[[]|e'] w2]; simpl in *; congruence.
  - pose proof (frames_remove net_log p w0 I) as Hrm. unfold same in Hrm.
    unfold bind. destruct (Os.remove p w0) as [[[]|e'] w2]; simpl in *; congruence.
Qed.

(** A download that raises leaves no file at the target path. *)
Lemma download_url_failure_leaves_no_file url p w e w' :
  _download_url remote max_str_digits url p w = (Raise e, w') → fs_files w' !! p = None.
Proof.
  unfold _download_url.
  destruct (download_try remote max_str_digits url p w) as [[[]|e0] w1]; simpl; [done|].
  unfold bind, Os.remove. case_bool_decide as Hin; simpl.
  - intros [= _ <-]. simpl. apply lookup_delete_eq.
  - case_bool_decide; intros [= _ <-]; by apply not_elem_of_dom.
Qed.

End Download.

Lemma open_wb_cases p w : can_open p w ∨ ∃ e, Os.open_wb p w = (Raise e, w).
Proof.
  unfold Os.open_wb, can_open.
  case_bool_decide as Hempty; [right; eauto|].
  destruct (PosixPath.ends_with_sep p) eqn:Hend; [right; eauto|].
  case_bool_decide as Hd; [right; eauto|].
  case_bool_decide as Hp; simpl.
  - case_bool_decide as Hin; simpl; [left; auto | right; eauto].
  - left. do 3 (split; [done|]). left.
    by destruct (decide (PosixPath.dirname p = "")).
Qed.

Lemma py_int_parsed {max_str_digits} s n (w : World) :
  PyInt.int_of_str max_str_digits s = Some n → py_int max_str_digits s w = (Ok n, w).
Proof. unfold py_int. by intros ->. Qed.

(** What the block under [with open(...)] does, by what the header says. *)

Lemma write_response_small {max_str_digits} r p w n :
  can_open p w → reported_size max_str_digits r = Some n → n < 1000000 →
  write_response max_str_digits r p w
  = (Raise (ValueError [PStr "Content should be at least 1 MB, but is only";
                        from_option PStr PNone (headers_get r "Content-Length");
                        PStr "bytes"]),
     with_files (<[p := []]> (fs_files w)) w).
Proof.
  intros Hopen Hsize Hn. unfold write_response.
  rewrite (bind_Ok _ _ _ _ _ (open_wb_Ok p w Hopen)).
  rewrite (bind_Ok _ _ _ _ _ (py_int_parsed _ _ _ Hsize)).
  apply bind_Raise. unfold check_total_size.
  by rewrite (proj2 (Z.ltb_lt n (1000 * 1000))) by lia.
Qed.

Lemma write_response_not_int {max_str_digits} r p w :
  can_open p w → reported_size max_str_digits r = None →
  write_response max_str_digits r p w
  = (Raise (ValueError [PStr "int(): invalid literal or too many digits"]),
     with_files (<[p := []]> (fs_files w)) w).
Proof.
  intros Hopen Hsize. unfold write_response.
  rewrite (bind_Ok _ _ _ _ _ (open_wb_Ok p w Hopen)).
  apply bind_Raise. unfold py_int. unfold reported_size in Hsize. by rewrite Hsize.
Qed.

Lemma write_response_large {max_str_digits} r p w n :
  can_open p w → reported_size max_str_digits r = Some n → 1000000 ≤ n →
  true_div_overflows n 1000 = false →
  write_response max_str_digits r p w
  = (match iter_error r with Some e => Raise e | None => Ok () end,
     with_files (<[p := concat (iter_content r)]> (fs_files w)) w).
Proof.
  intros Hopen Hsize Hn Hfloat. unfold write_response.
  rewrite (bind_Ok _ _ _ _ _ (open_wb_Ok p w Hopen)).
  rewrite (bind_Ok _ _ _ _ _ (py_int_parsed _ _ _ Hsize)).
  unfold check_total_size.
  rewrite (proj2 (Z.ltb_ge n (1000 * 1000))) by lia.
  rewrite bind_pass, Hfloat, bind_pass.
  erewrite write_chunks_spec by (simpl; apply lookup_insert_eq).
  simpl. unfold with_files. simpl. by rewrite insert_insert_eq.
Qed.

(** When the header announces too little, the block does not look at the
    body at all. *)
Lemma write_response_small_headers_only {max_str_digits} r r' p w :
  headers r' = headers r →
  (∀ n, reported_size max_str_digits r = Some n → n < 1000000) →
  write_response max_str_digits r' p w = write_response max_str_digits r p w.
Proof.
  intros Hh Hsmall.
  assert (headers_get r' "Content-Length" = headers_get r "Content-Length") as Hget
    by (unfold headers_get; by rewrite Hh).
  assert (reported_size max_str_digits r' = reported_size max_str_digits r) as Hrep
    by (unfold reported_size; by rewrite Hget).
  destruct (open_wb_cases p w) as [Hopen|[e He]].
  - destruct (reported_size max_str_digits r) as [n|] eqn:Hsize.
    + rewrite (write_response_small r p w n), (write_response_small r' p w n);
        rewrite ?Hget; auto.
    + by rewrite (write_response_not_int r), (write_response_not_int r').
  - unfold write_response. by rewrite !(bind_Raise _ _ _ _ _ He).
Qed.

Section DownloadOutcomes.

Variable remote : string → result Response.
Variable max_str_digits : nat.

Lemma download_try_response url p w r :
  remote url = Ok r →
  download_try remote max_str_digits url p w
  = write_response max_str_digits r p (with_net_log (url :: net_log w) w).
Proof. intros Hr. unfold download_try, bind at 1, requests_get. by rewrite Hr. Qed.

(** A failure after the file was opened: the file is removed and the
    caller gets [ValueError("Download incomplete.")]. *)
Lemma download_url_fails_after_open url p w r e content :
  remote url = Ok r →
  write_response max_str_digits r p (with_net_log (url :: net_log w) w)
  = (Raise e, with_files (<[p := content]> (fs_files w))
                (with_net_log (url :: net_log w) w)) →
  _download_url remote max_str_digits url p w
  = (Raise (ValueError [PStr "Download incomplete."]),
     with_files (delete p (fs_files w)) (with_net_log (url :: net_log w) w)).
Proof.
  intros Hr Hw. unfold _download_url.
  rewrite (download_try_response url p w r Hr), Hw. simpl.
  unfold bind, Os.remove. simpl.
  rewrite bool_decide_eq_true_2 by (rewrite dom_insert_L; set_solver).
  simpl. unfold with_files. simpl. by rewrite delete_insert_eq.
Qed.

End DownloadOutcomes.

Lemma reported_size_absent max_str_digits r :
  headers_get r "Content-Length" = None → reported_size max_str_digits r = Some 0.
Proof.
  unfold reported_size. intros ->. simpl. unfold PyInt.int_of_str, PyInt.too_long.
  by destruct max_str_digits as [|[|m]].
Qed.

Section DownloadClaims.

Variable remote : string → result Response.
Variable max_str_digits : nat.

(** C4, as the code has it.  When the response announces fewer than
    1,000,000 bytes (an absent or empty header counts as zero) and the
    target file could be opened, the size check raises the content error
    inside the [try] block; the routine catches it, removes the file and
    raises [ValueError("Download incomplete.")] to its caller.  No file is
    left at the target path. *)
Theorem download_small_content_length_rejected url p w r n :
  remote url = Ok r → can_open p w →
  reported_size max_str_digits r = Some n → n < 1000000 →
  (download_try remote max_str_digits url p w).1
  = Raise (ValueError [PStr "Content should be at least 1 MB, but is only";
                       from_option PStr PNone (headers_get r "Content-Length");
                       PStr "bytes"])
  ∧ (_download_url remote max_str_digits url p w).1
    = Raise (ValueError [PStr "Download incomplete."])
  ∧ fs_files (_download_url remote max_str_digits url p w).2 !! p = None.
Proof.
  intros Hr Hopen Hsize Hn.
  assert (can_open p (with_net_log (url :: net_log w) w)) as Hopen' by done.
  pose proof (write_response_small r p _ n Hopen' Hsize Hn) as Hw.
  split; [|split].
  - by rewrite (download_try_response remote max_str_digits url p w r Hr), Hw.
  - by rewrite (download_url_fails_after_open remote max_str_digits url p w r _ _ Hr Hw).
  - rewrite (download_url_fails_after_open remote max_str_digits url p w r _ _ Hr Hw).
    apply lookup_delete_eq.
Qed.

(** The failure that comes before the file is opened: the [finally] block
    tries to remove a file that was never made, and the error of
    [os.remove] is what the caller gets. *)
Lemma download_url_fails_before_open url p w e :
  remote url = Raise e → ¬ exists_in p w →
  _download_url remote max_str_digits url p w
  = (Raise (FileNotFoundError p), with_net_log (url :: net_log w) w).
Proof.
  intros Hr Hnone. unfold _download_url, download_try, bind at 1, requests_get.
  rewrite Hr. simpl. unfold bind, Os.remove. simpl.
  unfold exists_in in Hnone.
  rewrite !bool_decide_eq_false_2 by tauto. done.
Qed.

End DownloadClaims.

(** C10.  Whether a download is accepted is settled by the [Content-Length]
    header alone.  If the header is absent, or announces fewer than 1,000,000
    bytes, the routine raises and leaves no file, and does so identically for
    any other response with the same headers, whatever its body.  If the
    header announces at least 1,000,000 bytes, the size check passes; and
    then, with the file opened, the size within the range of a float and the
    transfer uninterrupted, the routine returns normally and the file holds
    the body, however short that is. *)
Theorem size_check_decided_by_content_length
    (remote remote' : string → result Response) (max_str_digits : nat)
    url p w r r' :
  remote url = Ok r → remote' url = Ok r' → headers r' = headers r →
  ((headers_get r "Content-Length" = None
    ∨ ∃ n, reported_size max_str_digits r = Some n ∧ n < 1000000) →
   (∃ e, (_download_url remote max_str_digits url p w).1 = Raise e)
   ∧ fs_files (_download_url remote max_str_digits url p w).2 !! p = None
   ∧ _download_url remote' max_str_digits url p w = _download_url remote max_str_digits url p w)
  ∧ (∀ n, reported_size max_str_digits r = Some n → 1000000 ≤ n →
          (∀ w1, check_total_size (headers_get r "Content-Length") n w1 = (Ok (), w1))
          ∧ (true_div_overflows n 1000 = false →
             can_open p w → iter_error r = None →
             _download_url remote max_str_digits url p w
             = (Ok (), with_files (<[p := concat (iter_content r)]> (fs_files w))
                         (with_net_log (url :: net_log w) w)))).
Proof.
  intros Hr Hr' Hh. split.
  - intros Hsmall.
    assert (∀ n, reported_size max_str_digits r = Some n → n < 1000000) as Hlt.
    { intros n Hn. destruct Hsmall as [Habs|(m & Hm & ?)].
      - rewrite (reported_size_absent max_str_digits r Habs) in Hn. injection Hn as <-. lia.
      - congruence. }
    set (w0 := with_net_log (url :: net_log w) w).
    assert (is_Ok (write_response max_str_digits r p w0).1 = false) as Hraise.
    { destruct (open_wb_cases p w0) as [Hopen|[e He]].
      - destruct (reported_size max_str_digits r) as [n|] eqn:Hsize.
        + by rewrite (write_response_small r p w0 n Hopen Hsize (Hlt n eq_refl)).
        + by rewrite (write_response_not_int r p w0 Hopen Hsize).
      - unfold write_response. by rewrite (bind_Raise _ _ _ _ _ He). }
    assert (∃ e, (_download_url remote max_str_digits url p w).1 = Raise e) as [e He].
    { unfold _download_url. rewrite (download_try_response remote max_str_digits url p w r Hr).
      fold w0. destruct (write_response max_str_digits r p w0) as [[[]|e0] w1]; [done|]. simpl.
      unfold bind. destruct (Os.remove p w1) as [[[]|e1] w2]; simpl; eauto. }
    split; [eauto|]. split.
    + destruct (_download_url remote max_str_digits url p w) as [res w'] eqn:Hd.
      simpl in He. subst res. simpl.
      by eapply (download_url_failure_leaves_no_file remote max_str_digits url p w e w').
    + unfold _download_url.
      rewrite (download_try_response remote max_str_digits url p w r Hr),
              (download_try_response remote' max_str_digits url p w r' Hr').
      by rewrite (write_response_small_headers_only r r' p _ Hh Hlt).
  - intros n Hsize Hn. split.
    { intros w1. unfold check_total_size.
      by rewrite (proj2 (Z.ltb_ge n (1000 * 1000))) by lia. }
    intros Hfloat Hopen Herr. unfold _download_url.
    rewrite (download_try_response remote max_str_digits url p w r Hr).
    assert (can_open p (with_net_log (url :: net_log w) w)) as Hopen' by done.
    rewrite (write_response_large r p _ n Hopen' Hsize Hn Hfloat), Herr. done.
Qed.

(** ** The toy instance, evaluated *)

(** Decidable facts about closed terms, by evaluation. *)
Ltac by_decide :=
  first [ apply (bool_decide_eq_true_1 _); vm_compute; reflexivity
        | apply (bool_decide_eq_false_1 _); vm_compute; reflexivity ].

Lemma toy_can_open_lying : can_open "/tmp/llama_index/models/lying.bin" Toy.w0.
Proof. repeat split; [done | by_decide | right; by_decide]. Qed.

Lemma toy_can_open_small : can_open "/tmp/llama_index/models/small.bin" Toy.w0.
Proof. repeat split; [done | by_decide | right; by_decide]. Qed.

Lemma download_small_content_length_witness :
  let p := "/tmp/llama_index/models/small.bin" in
  let out := _download_url Toy.remote 4300 "http://h/small.bin" p Toy.w0 in
  (download_try Toy.remote 4300 "http://h/small.bin" p Toy.w0).1
  = Raise (ValueError [PStr "Content should be at least 1 MB, but is only";
                       PStr "10"; PStr "bytes"])
  ∧ out.1 = Raise (ValueError [PStr "Download incomplete."])
  ∧ fs_files out.2 !! p = None.
Proof.
  exact (download_small_content_length_rejected Toy.remote 4300
           "http://h/small.bin" "/tmp/llama_index/models/small.bin" Toy.w0
           (Toy.response (Some "10") [[x30; x31; x32; x33; x34; x35; x36; x37; x38; x39]])
           10 eq_refl toy_can_open_small eq_refl eq_refl).
Defined.

(** C4, as stated, fails.  A source of three bytes whose header announces two
    million passes the check: the routine returns normally and the three
    bytes stay at the target path.  And where a small source is rejected,
    the error that reaches the caller is the "download incomplete" one. *)
Lemma small_source_not_rejected_counterexample :
  let p := "/tmp/llama_index/models/lying.bin" in
  let out := _download_url Toy.remote 4300 "http://h/lying.bin" p Toy.w0 in
  Toy.remote "http://h/lying.bin"
  = Ok (Toy.response (Some "2000000") [[x41; x42; x43]])
  ∧ out.1 = Ok ()
  ∧ fs_files out.2 !! p = Some [x41; x42; x43]
  ∧ (_download_url Toy.remote 4300 "http://h/small.bin"
       "/tmp/llama_index/models/small.bin" Toy.w0).1
    = Raise (ValueError [PStr "Download incomplete."]).
Proof. repeat split; vm_compute; reflexivity. Qed.

(** C5, at the failing input.  The address cannot be reached, so no file is
    ever opened; the routine then raises [FileNotFoundError] out of
    [os.remove], not the "download incomplete" error. *)
Theorem download_unreachable_raises_file_not_found :
  _download_url Toy.remote 4300 "http://h/unreachable.bin"
    "/tmp/llama_index/models/unreachable.bin" Toy.w0
  = (Raise (FileNotFoundError "/tmp/llama_index/models/unreachable.bin"),
     with_net_log ["http://h/unreachable.bin"] Toy.w0).
Proof.
  apply (download_url_fails_before_open Toy.remote 4300 _ _ Toy.w0
           (RequestException "connection refused")); [reflexivity|].
  intros [Hin|Hin]; revert Hin; by_decide.
Qed.

Lemma size_check_witness :
  let small := "/tmp/llama_index/models/small.bin" in
  let lying := "/tmp/llama_index/models/lying.bin" in
  ((∃ e, (_download_url Toy.remote 4300 "http://h/small.bin" small Toy.w0).1 = Raise e)
   ∧ fs_files (_download_url Toy.remote 4300 "http://h/small.bin" small Toy.w0).2 !! small = None
   ∧ _download_url Toy.remote_other_body 4300 "http://h/small.bin" small Toy.w0
     = _download_url Toy.remote 4300 "http://h/small.bin" small Toy.w0)
  ∧ _download_url Toy.remote 4300 "http://h/lying.bin" lying Toy.w0
    = (Ok (), with_files (<[lying := [x41; x42; x43]]> (fs_files Toy.w0))
                (with_net_log ["http://h/lying.bin"] Toy.w0)).
Proof.
  intros small lying. split.
  - apply (proj1 (size_check_decided_by_content_length Toy.remote
                    Toy.remote_other_body 4300
                    "http://h/small.bin" small Toy.w0 _ _ eq_refl eq_refl eq_refl)).
    right. exists 10. split; [reflexivity|lia].
  - apply (proj2 (size_check_decided_by_content_length Toy.remote Toy.remote 4300
                    "http://h/lying.bin" lying Toy.w0 _ _ eq_refl eq_refl eq_refl)
             2000000);
      [reflexivity | lia | reflexivity | exact toy_can_open_lying | reflexivity].
Defined.

(** ** Paths *)

Lemma default_model_name :
  PosixPath.basename DEFAULT_LLAMA_CPP_MODEL = "llama-2-13b-chat.ggmlv3.q4_0.bin".
Proof. reflexivity. Qed.

Lemma dirname_examples :
  PosixPath.dirname "/tmp/llama_index/models/m.bin" = "/tmp/llama_index/models"
  ∧ PosixPath.dirname "/m.bin" = "/" ∧ PosixPath.dirname "m.bin" = ""
  ∧ PosixPath.dirname "a//b" = "a" ∧ PosixPath.dirname "//b" = "//".
Proof. repeat split; reflexivity. Qed.

Lemma join_examples :
  PosixPath.join "/tmp/llama_index" ["models"; "m.bin"] = "/tmp/llama_index/models/m.bin"
  ∧ PosixPath.join "/tmp/" ["models"; "m.bin"] = "/tmp/models/m.bin"
  ∧ PosixPath.join "" ["models"; "m.bin"] = "models/m.bin"
  ∧ PosixPath.join "/tmp" ["models"; ""] = "/tmp/models/".
Proof. repeat split; reflexivity. Qed.

Lemma int_examples :
  PyInt.int_of_str 4300 "1000000" = Some 1000000
  ∧ PyInt.int_of_str 4300 " +1_000 " = Some 1000
  ∧ PyInt.int_of_str 4300 "-5" = Some (-5)
  ∧ PyInt.int_of_str 4300 "1__0" = None ∧ PyInt.int_of_str 4300 "_1" = None
  ∧ PyInt.int_of_str 4300 "1_" = None ∧ PyInt.int_of_str 4300 "" = None
  ∧ PyInt.int_of_str 4300 "- 5" = None ∧ PyInt.int_of_str 4300 "007" = Some 7.
Proof. repeat split; reflexivity. Qed.

Lemma str_length_app s t : String.length (s +:+ t) = (String.length s + String.length t)%nat.
Proof. induction s as [|c s IH]; [done|]. rewrite str_app_cons. simpl. by rewrite IH. Qed.

Module PosixPathFacts.
Import PosixPath.

Lemma rsplit_sep_Some p h t :
  rsplit_sep p = Some (h, t) → p = h +:+ t ∧ rsplit_sep t = None.
Proof.
  revert h. induction p as [|c p IH]; intros h; simpl; [done|].
  destruct (rsplit_sep p) as [[h' t']|] eqn:Hp.
  - intros [= <- <-]. destruct (IH h' eq_refl) as [-> Ht]. done.
  - destruct (is_sep c); [|done]. intros [= <- <-]. done.
Qed.

Lemma rsplit_sep_None_starts p : rsplit_sep p = None → starts_with_sep p = false.
Proof.
  destruct p as [|c p]; simpl; [done|].
  destruct (rsplit_sep p) as [[??]|]; [done|]. by destruct (is_sep c).
Qed.

Lemma basename_no_sep p : rsplit_sep (basename p) = None.
Proof.
  unfold basename. destruct (rsplit_sep p) as [[h t]|] eqn:Hp; [|done].
  by destruct (rsplit_sep_Some p h t Hp).
Qed.

Lemma rsplit_sep_app_sep h t :
  rsplit_sep t = None → rsplit_sep (h +:+ String "/" t) = Some (h +:+ "/", t).
Proof.
  intros Ht. induction h as [|c h IH].
  - change ("" +:+ String "/" t) with (String "/" t). simpl. by rewrite Ht.
  - rewrite (str_app_cons c h (String "/" t)). simpl. by rewrite IH.
Qed.

Lemma ends_with_sep_app_char s c : ends_with_sep (s +:+ String c "") = is_sep c.
Proof.
  induction s as [|c' s IH]; [done|].
  rewrite str_app_cons. simpl. rewrite IH.
  by destruct s.
Qed.

Lemma all_sep_app s t : all_sep (s +:+ t) = all_sep s && all_sep t.
Proof.
  induction s as [|c s IH]; [done|].
  rewrite str_app_cons. simpl. by rewrite IH, andb_assoc.
Qed.

Lemma rstrip_sep_app s t :
  rstrip_sep t ≠ "" → rstrip_sep (s +:+ t) = s +:+ rstrip_sep t.
Proof.
  intros Ht. induction s as [|c s IH]; [done|].
  rewrite !str_app_cons. simpl. rewrite IH.
  destruct (s +:+ rstrip_sep t) eqn:Hs; [|done].
  destruct s; [|done]. by destruct Ht.
Qed.

Lemma rstrip_sep_length s : (String.length (rstrip_sep s) ≤ String.length s)%nat.
Proof.
  induction s as [|c s IH]; simpl; [done|].
  destruct (rstrip_sep s); [destruct (is_sep c)|]; simpl in *; lia.
Qed.

Lemma dirname_length p : (String.length (dirname p) ≤ String.length p)%nat.
Proof.
  unfold dirname. destruct (rsplit_sep p) as [[h t]|] eqn:Hp; simpl.
  - destruct (rsplit_sep_Some p h t Hp) as [-> _]. rewrite str_length_app.
    pose proof (rstrip_sep_length h). case_match; lia.
  - lia.
Qed.

Lemma join_step_length path b :
  starts_with_sep b = false →
  (String.length path + String.length b ≤ String.length (join_step path b))%nat.
Proof.
  intros Hb. unfold join_step. rewrite Hb.
  case_match; rewrite ?str_length_app; simpl; lia.
Qed.

(** [os.path.join(c, "models", b)] written out, for a directory [c] that
    is given without a trailing separator. *)
Lemma join_models c b :
  c ≠ "" → ends_with_sep c = false → rsplit_sep b = None →
  join c ["models"; b] = c +:+ "/models/" +:+ b.
Proof.
  intros Hc Hend Hb. unfold join. simpl.
  assert (join_step c "models" = c +:+ "/models") as ->.
  { unfold join_step. simpl. by rewrite bool_decide_eq_false_2, Hend by done. }
  unfold join_step. rewrite (rsplit_sep_None_starts b Hb).
  change (c +:+ "/models") with (c +:+ "/model" +:+ String "s" "").
  rewrite <- (str_app_assoc c "/model"), ends_with_sep_app_char.
  rewrite bool_decide_eq_false_2.
  - simpl. rewrite !str_app_assoc. done.
  - destruct c; [done|]. done.
Qed.

Lemma dirname_models c b :
  rsplit_sep b = None → dirname (c +:+ "/models/" +:+ b) = c +:+ "/models".
Proof.
  intros Hb. unfold dirname.
  change (c +:+ "/models/" +:+ b) with (c +:+ "/models" +:+ String "/" b).
  rewrite <- (str_app_assoc c "/models").
  rewrite (rsplit_sep_app_sep _ b Hb).
  rewrite str_app_assoc. simpl.
  rewrite all_sep_app, andb_false_r. simpl.
  rewrite bool_decide_eq_true_2 by (by destruct c).
  simpl. by rewrite rstrip_sep_app.
Qed.

End PosixPathFacts.

Lemma ancestors_length fuel p a :
  a ∈ Os.ancestors fuel p → (String.length a ≤ String.length p)%nat.
Proof.
  revert p. induction fuel as [|fuel IH]; intros p; simpl.
  - by intros ?%elem_of_nil.
  - case_bool_decide; [by intros ?%elem_of_nil|].
    intros [->|Hin]%elem_of_cons; [done|].
    case_bool_decide; [by apply elem_of_nil in Hin|].
    specialize (IH _ Hin). pose proof (PosixPathFacts.dirname_length p). lia.
Qed.

Lemma ancestors_head p : p ≠ "" → p ∈ Os.ancestors (S (String.length p)) p.
Proof. intros Hp. simpl. rewrite bool_decide_eq_false_2 by done. apply elem_of_cons. by left. Qed.

Lemma makedirs_Ok p w :
  can_makedirs p w →
  Os.makedirs p w
  = (Ok (), with_dirs (list_to_set (Os.ancestors (S (String.length p)) p) ∪ fs_dirs w) w).
Proof.
  intros [Hp Hfree]. unfold Os.makedirs.
  rewrite bool_decide_eq_false_2 by done.
  destruct (List.find _ _) as [a|] eqn:Hfind; [|done].
  apply List.find_some in Hfind as [Hin Hfile].
  apply bool_decide_eq_true_1 in Hfile.
  rewrite Forall_forall in Hfree. destruct (Hfree a); [|done].
  by apply list_elem_of_In.
Qed.

Lemma can_makedirs_same p w w' : same fs_files w w' → can_makedirs p w → can_makedirs p w'.
Proof. unfold same, can_makedirs. by intros ->. Qed.

(** ** The constructor *)

Lemma path_exists_true p w : exists_in p w → Os.path_exists p w = (Ok true, w).
Proof.
  unfold Os.path_exists, exists_in. intros [Hin|Hin].
  - by rewrite (bool_decide_eq_true_2 _ Hin).
  - by rewrite (bool_decide_eq_true_2 _ Hin), orb_true_r.
Qed.

Lemma path_exists_false p w : ¬ exists_in p w → Os.path_exists p w = (Ok false, w).
Proof.
  unfold Os.path_exists, exists_in. intros Hnone.
  by rewrite !bool_decide_eq_false_2 by tauto.
Qed.

Lemma path_exists_inv p w b w' :
  Os.path_exists p w = (Ok b, w') →
  w' = w ∧ (if b then exists_in p w else ¬ exists_in p w).
Proof.
  unfold Os.path_exists, exists_in. intros [= <- <-]. split; [done|].
  do 2 case_bool_decide; simpl; tauto.
Qed.

Lemma exists_in_same p w w' :
  same fs_files w w' → same fs_dirs w w' → exists_in p w' ↔ exists_in p w.
Proof. unfold same, exists_in. by intros -> ->. Qed.

Lemma dict_or_new_total d w : ∃ l w', dict_or_new d w = (Ok l, w').
Proof. unfold dict_or_new. repeat case_match; eauto. Qed.

(** [d or {}] hands back the caller's dictionary when it is not empty, and a
    new, empty one otherwise. *)
Lemma dict_or_new_inv d w l w' :
  dict_or_new d w = (Ok l, w') →
  (d = Some l ∧ deref l w ≠ ∅ ∧ w' = w)
  ∨ ((l ∉ dom (heap w)) ∧ w' = with_heap (<[l := ∅]> (heap w)) w
     ∧ ∀ l0, d = Some l0 → deref l0 w = ∅).
Proof.
  unfold dict_or_new. destruct d as [l0|].
  - case_bool_decide as He; intros [= <- <-].
    + right. split; [apply is_fresh|]. split; [done|]. by intros ? [= <-].
    + left. done.
  - intros [= <- <-]. right. split; [apply is_fresh|]. done.
Qed.

Lemma dict_update_eq l items w :
  dict_update l items w
  = (Ok (), with_heap (<[l := foldl (λ d kv, <[kv.1 := kv.2]> d) (deref l w) items]>
                         (heap w)) w).
Proof. reflexivity. Qed.

(** [d = d or {}; d.update(items)]: which dictionary object ends up updated,
    and that no other object changes. *)
Lemma dict_or_new_update d items w l w1 :
  dict_or_new d w = (Ok l, w1) →
  let w2 := (dict_update l items w1).2 in
  deref l w2 = foldl (λ d kv, <[kv.1 := kv.2]> d) (deref l w1) items
  ∧ (∀ l', l' ≠ l → deref l' w2 = deref l' w)
  ∧ l ∈ dom (heap w2)
  ∧ dom (heap w) ⊆ dom (heap w2)
  ∧ ((d = Some l ∧ deref l w ≠ ∅ ∧ deref l w1 = deref l w)
     ∨ ((l ∉ dom (heap w)) ∧ deref l w1 = ∅ ∧ ∀ l0, d = Some l0 → deref l0 w = ∅)).
Proof.
  intros Hnew. simpl. unfold deref at 1. simpl. rewrite lookup_insert_eq. simpl.
  split; [done|].
  apply dict_or_new_inv in Hnew as [(-> & Hne & ->)|(Hfresh & -> & Hempty)].
  - split; [|split; [|split]].
    + intros l' Hl'. unfold deref. simpl. by rewrite lookup_insert_ne.
    + rewrite dom_insert_L. set_solver.
    + rewrite dom_insert_L. set_solver.
    + by left.
  - split; [|split; [|split]].
    + intros l' Hl'. unfold deref. simpl. by rewrite !lookup_insert_ne.
    + rewrite dom_insert_L. set_solver.
    + rewrite !dom_insert_L. set_solver.
    + right. split; [done|]. split; [|done].
      unfold deref. simpl. by rewrite lookup_insert_eq.
Qed.

(** Lookups through a stack of inserts under distinct literal keys. *)
Ltac lookup_inserts :=
  repeat first [ rewrite lookup_insert_eq | rewrite lookup_insert_ne by done ].

Lemma deref_fresh l w : l ∉ dom (heap w) → deref l w = ∅.
Proof. intros Hl. unfold deref. by rewrite (not_elem_of_dom_1 _ _ Hl). Qed.

Lemma deref_same_heap l w w' : same heap w w' → deref l w' = deref l w.
Proof. unfold same, deref. by intros ->. Qed.

Section Construction.

Variable remote : string → result Response.
Variable max_str_digits : nat.
Variable llama_cpp_installed : bool.
Variable cache_root : string.
Context {Engine : Type}.
Variable Llama_load : string → option (list byte) → kwargs → result Engine.
Variable generic_messages_to_prompt : list ChatMessage → string.

Local Abbreviation init :=
  (__init__ remote max_str_digits llama_cpp_installed cache_root Llama_load
     generic_messages_to_prompt).
Local Abbreviation resolve := (resolve_model remote max_str_digits cache_root Llama_load).

Lemma frames_super_init P R `{!PreOrder R} a p m2p c2p gk mk (e : Engine) :
  frames P R (super_init a p m2p c2p gk mk e).
Proof. by intros w _. Qed.

Lemma frames_get_cache_dir {X} (f : World → X) `{!IgnoresDirs f} :
  frames always (same f) (get_cache_dir cache_root).
Proof.
  unfold get_cache_dir.
  apply frames_bind; [apply _|done|apply frames_path_exists|intros present].
  apply frames_bind; [apply _|done| |intros _; apply frames_ret; apply _].
  destruct present; [apply frames_pass; apply _|by apply frames_makedirs].
Qed.

Lemma get_cache_dir_more_dirs : frames always more_dirs (get_cache_dir cache_root).
Proof.
  unfold get_cache_dir.
  apply frames_bind; [apply _|done| |intros present].
  { eapply frames_weaken; [done|apply same_dirs_more_dirs|apply frames_path_exists]. }
  apply frames_bind; [apply _|done| |intros _; apply frames_ret; apply _].
  destruct present; [apply frames_pass; apply _|apply makedirs_more_dirs].
Qed.

Lemma get_cache_dir_quiet : frames always quiet (get_cache_dir cache_root).
Proof.
  apply frames_quiet;
    [by apply frames_get_cache_dir..|apply get_cache_dir_more_dirs].
Qed.

Lemma get_cache_dir_inv w c w' :
  get_cache_dir cache_root w = (Ok c, w') → c = cache_root.
Proof.
  unfold get_cache_dir, bind, Os.path_exists, ret.
  repeat case_match; congruence.
Qed.

(** C6.  With an explicit [model_path] at which nothing exists, the
    constructor raises: the [ValueError] about the missing path when
    llama_cpp can be imported, the [ImportError] otherwise.  Nothing was
    requested from the network and the file system is as it was. *)
Theorem init_missing_model_path_fails a w p :
  arg_model_path a = Some p → ¬ exists_in p w →
  (init a w).1
  = Raise (if llama_cpp_installed
           then ValueError
                  [PStr ("Provided model path does not exist. "
                         +:+ "Please check the path or provide a model_url to download.")]
           else ImportError
                  ("Could not import llama_cpp library."
                   +:+ "Please install llama_cpp with `pip install llama-cpp-python`."
                   +:+ "See the full installation guide for GPU support at "
                   +:+ "`https://github.com/abetlen/llama-cpp-python`"))
  ∧ net_log (init a w).2 = net_log w
  ∧ fs_files (init a w).2 = fs_files w
  ∧ fs_dirs (init a w).2 = fs_dirs w.
Proof.
  intros Hpath Hnone. unfold __init__, import_llama_cpp.
  destruct llama_cpp_installed; [|done].
  rewrite bind_pass.
  destruct (dict_or_new_total (arg_model_kwargs a) w) as (mk & w1 & E1).
  pose proof (frames_dict_or_new net_log (arg_model_kwargs a) w I) as Hnet.
  pose proof (frames_dict_or_new fs_files (arg_model_kwargs a) w I) as Hfiles.
  pose proof (frames_dict_or_new fs_dirs (arg_model_kwargs a) w I) as Hdirs.
  rewrite E1 in Hnet, Hfiles, Hdirs. simpl in *.
  rewrite (bind_Ok _ _ _ _ _ E1).
  rewrite (bind_Ok _ _ _ _ _ (dict_update_eq _ _ _)).
  set (w2 := with_heap _ w1).
  assert (¬ exists_in p w2) as Hnone2.
  { intros Hex. apply Hnone. by apply (exists_in_same p w w1). }
  rewrite (bind_Raise _ _ w2
             (ValueError
                [PStr ("Provided model path does not exist. "
                       +:+ "Please check the path or provide a model_url to download.")])
             w2).
  { by repeat split. }
  unfold resolve_model. rewrite Hpath.
  by rewrite (bind_Ok _ _ _ _ _ (path_exists_false p w2 Hnone2)).
Qed.

Lemma frames_quiet_same {A} P (m : M A) :
  frames always (same net_log) m → frames always (same fs_files) m →
  frames always (same fs_dirs) m → frames P quiet m.
Proof.
  intros H1 H2 H3 w _. repeat split; [by apply H1|by apply H2|].
  apply same_dirs_more_dirs. by apply H3.
Qed.

Lemma Llama_world p mk w : (Llama Llama_load p mk w).2 = w.
Proof. unfold Llama. by case_match. Qed.

Lemma Llama_quiet P p mk : frames P quiet (Llama Llama_load p mk).
Proof. apply frames_quiet_same; apply frames_Llama. Qed.

(** When the model is already where [__init__] looks for it, resolving it
    fetches nothing and writes no file. *)
Lemma resolve_model_cached a mk :
  frames (exists_in (resolved_path cache_root a)) quiet (resolve a mk).
Proof.
  intros w Hex. unfold resolve_model, resolved_path in *.
  destruct (arg_model_path a) as [p|].
  - rewrite (bind_Ok _ _ _ _ _ (path_exists_true p w Hex)). simpl.
    pose proof (Llama_world p mk w) as Hw. unfold bind.
    destruct (Llama Llama_load p mk w) as [[e|err] w1]; simpl in *; by subst.
  - pose proof (get_cache_dir_quiet w I) as Hq. unfold bind at 1.
    destruct (get_cache_dir cache_root w) as [[c|err] w1] eqn:Ec; simpl in *; [|done].
    apply get_cache_dir_inv in Ec as ->.
    pose proof (exists_in_quiet _ _ _ Hex Hq) as Hex1.
    rewrite (bind_Ok _ _ _ _ _ (path_exists_true _ w1 Hex1)). simpl.
    rewrite bind_pass.
    pose proof (Llama_world (cached_model_path cache_root (arg_model_url a)) mk w1) as Hw.
    unfold bind.
    destruct (Llama Llama_load _ mk w1) as [[e|err] w2]; simpl in *; by subst.
Qed.

Lemma init_cached a :
  frames (exists_in (resolved_path cache_root a)) quiet (init a).
Proof.
  unfold __init__.
  apply frames_bind; [apply _|apply exists_in_quiet| |intros _].
  { apply frames_quiet_same; apply frames_import_llama_cpp. }
  apply frames_bind; [apply _|apply exists_in_quiet| |intros mk].
  { apply frames_quiet_same; by apply frames_dict_or_new. }
  apply frames_bind; [apply _|apply exists_in_quiet| |intros _].
  { apply frames_quiet_same; by apply frames_dict_update. }
  apply frames_bind; [apply _|apply exists_in_quiet| |intros [p e]].
  { apply resolve_model_cached. }
  apply frames_bind; [apply _|apply exists_in_quiet| |intros gk].
  { apply frames_quiet_same; by apply frames_dict_or_new. }
  apply frames_bind; [apply _|apply exists_in_quiet| |intros _].
  { apply frames_quiet_same; by apply frames_dict_update. }
  apply frames_super_init. apply _.
Qed.

(** C7.  If something already exists at the path the constructor settles
    on (the explicit [model_path], or the cache path of the URL), the
    constructor requests nothing from the network and leaves every file as
    it was.  The path still exists afterwards, so the same holds for the
    next construction. *)
Theorem init_cached_model_skips_download a w :
  exists_in (resolved_path cache_root a) w →
  net_log (init a w).2 = net_log w
  ∧ fs_files (init a w).2 = fs_files w
  ∧ exists_in (resolved_path cache_root a) (init a w).2.
Proof.
  intros Hex. pose proof (init_cached a w Hex) as Hq.
  split; [apply Hq|]. split; [apply Hq|]. by eapply exists_in_quiet.
Qed.

(** *** The cache path *)

Lemma frames_download_to_cache {X} (f : World → X)
    `{!IgnoresFiles f, !IgnoresNet f, !IgnoresDirs f} url p :
  frames always (same f) (download_to_cache remote max_str_digits url p).
Proof.
  unfold download_to_cache.
  apply frames_bind; [apply _|done|by apply frames_makedirs|intros _].
  apply frames_bind; [apply _|done|by apply frames_download_url|intros _].
  apply frames_bind; [apply _|done|by apply frames_path_exists|intros present].
  destruct present; [apply frames_pass|apply frames_raise]; apply _.
Qed.

Lemma download_to_cache_makes_dir url p w :
  can_makedirs (PosixPath.dirname p) w →
  PosixPath.dirname p ∈ fs_dirs (download_to_cache remote max_str_digits url p w).2.
Proof.
  intros Hmk. unfold download_to_cache.
  rewrite (bind_Ok _ _ _ _ _ (makedirs_Ok _ w Hmk)).
  set (w1 := with_dirs _ w).
  assert (PosixPath.dirname p ∈ fs_dirs w1) as Hin.
  { simpl. apply elem_of_union_l, elem_of_list_to_set, ancestors_head, Hmk. }
  assert (frames always (same fs_dirs)
            (let* _ := _download_url remote max_str_digits url p in
             let* present := Os.path_exists p in
             if present then pass else raise AssertionError)) as Hrest.
  { apply frames_bind; [apply _|done|by apply frames_download_url|intros _].
    apply frames_bind; [apply _|done|by apply frames_path_exists|intros present].
    destruct present; [apply frames_pass|apply frames_raise]; apply _. }
  by rewrite (Hrest w1 I).
Qed.

Lemma download_to_cache_inv url p w w' :
  download_to_cache remote max_str_digits url p w = (Ok (), w') → exists_in p w'.
Proof.
  unfold download_to_cache.
  intros (_ & w1 & _ & H1)%bind_inv_Ok.
  apply bind_inv_Ok in H1 as (_ & w2 & _ & H2).
  apply bind_inv_Ok in H2 as (present & w3 & Hex & H3).
  apply path_exists_inv in Hex as [-> Hex].
  destruct present; [|done]. by injection H3 as <-.
Qed.

Lemma get_cache_dir_Ok w :
  can_makedirs cache_root w →
  ∃ w', get_cache_dir cache_root w = (Ok cache_root, w')
        ∧ same fs_files w w'
        ∧ ∀ d, d ∈ fs_dirs w' →
               d ∈ fs_dirs w
               ∨ d ∈ Os.ancestors (S (String.length cache_root)) cache_root.
Proof.
  intros Hmk. unfold get_cache_dir, bind at 1, Os.path_exists.
  destruct (_ || _).
  - exists w. rewrite bind_pass. repeat split; auto.
  - rewrite (bind_Ok _ _ _ _ _ (makedirs_Ok _ w Hmk)).
    eexists. split; [reflexivity|]. split; [done|].
    simpl. intros d [Hd|Hd]%elem_of_union; [right|by left].
    by apply elem_of_list_to_set in Hd.
Qed.

Lemma cached_model_path_longer url :
  (String.length cache_root < String.length (cached_model_path cache_root url))%nat.
Proof.
  unfold cached_model_path, PosixPath.join. simpl.
  pose proof (PosixPathFacts.join_step_length cache_root "models" eq_refl) as H1.
  pose proof (PosixPathFacts.join_step_length
                (PosixPath.join_step cache_root "models") (PosixPath.basename url)
                (PosixPathFacts.rsplit_sep_None_starts _
                   (PosixPathFacts.basename_no_sep url))) as H2.
  simpl in H1. lia.
Qed.

Lemma resolve_model_makes_dir a mk w :
  arg_model_path a = None →
  let p := cached_model_path cache_root (arg_model_url a) in
  ¬ exists_in p w → can_makedirs cache_root w →
  can_makedirs (PosixPath.dirname p) w →
  PosixPath.dirname p ∈ fs_dirs (resolve a mk w).2.
Proof.
  intros Hnone p Hmissing Hroot Hdir. unfold resolve_model. rewrite Hnone.
  destruct (get_cache_dir_Ok w Hroot) as (w1 & Hc & Hfiles & Hdirs).
  rewrite (bind_Ok _ _ _ _ _ Hc). fold p.
  assert (¬ exists_in p w1) as Hmissing1.
  { intros [Hin|Hin]; [rewrite Hfiles in Hin; apply Hmissing; by left|].
    destruct (Hdirs _ Hin) as [Hd|Hd]; [apply Hmissing; by right|].
    apply ancestors_length in Hd.
    pose proof (cached_model_path_longer (arg_model_url a)). unfold p in Hd. lia. }
  rewrite (bind_Ok _ _ _ _ _ (path_exists_false p w1 Hmissing1)). simpl.
  apply (bind_post (λ w, PosixPath.dirname p ∈ fs_dirs w)).
  - apply download_to_cache_makes_dir. by apply (can_makedirs_same _ w w1).
  - intros _ w2 Hin. apply (bind_post (λ w, PosixPath.dirname p ∈ fs_dirs w)).
    + by rewrite Llama_world.
    + done.
Qed.

Lemma resolve_model_inv a mk w p e w' :
  resolve a mk w = (Ok (p, e), w') →
  p = resolved_path cache_root a ∧ exists_in p w'.
Proof.
  unfold resolve_model, resolved_path. destruct (arg_model_path a) as [p0|].
  - intros (present & w1 & [-> Hex]%path_exists_inv & H1)%bind_inv_Ok.
    destruct present; [|done]. simpl in H1.
    apply bind_inv_Ok in H1 as (e' & w2 & HL & [= <- <- <-]).
    pose proof (Llama_world p0 mk w) as Hw. rewrite HL in Hw. simpl in Hw. by subst.
  - intros (c & w1 & ->%get_cache_dir_inv & H1)%bind_inv_Ok.
    apply bind_inv_Ok in H1 as (present & w2 & [-> Hex]%path_exists_inv & H2).
    apply bind_inv_Ok in H2 as ([] & w3 & Hfetch & H3).
    apply bind_inv_Ok in H3 as (e' & w4 & HL & [= <- <- <-]).
    pose proof (Llama_world (cached_model_path cache_root (arg_model_url a)) mk w3) as Hw.
    rewrite HL in Hw. simpl in Hw. subst w4. split; [done|].
    destruct present; simpl in Hfetch.
    + by injection Hfetch as <-.
    + by apply download_to_cache_inv in Hfetch.
Qed.

Lemma init_Ok_model_path a w self w' :
  init a w = (Ok self, w') →
  model_path self = Some (resolved_path cache_root a)
  ∧ exists_in (resolved_path cache_root a) w'.
Proof.
  unfold __init__.
  intros (_ & w0 & _ & H0)%bind_inv_Ok.
  apply bind_inv_Ok in H0 as (mk & w1 & _ & H1).
  apply bind_inv_Ok in H1 as (_ & w2 & _ & H2).
  apply bind_inv_Ok in H2 as ([p e] & w3 & [-> Hex]%resolve_model_inv & H3).
  apply bind_inv_Ok in H3 as (gk & w4 & Hgk & H4).
  apply bind_inv_Ok in H4 as ([] & w5 & Hup & Hs).
  unfold super_init in Hs. injection Hs as <- Hw. subst w'.
  split; [done|].
  pose proof (frames_dict_or_new fs_files (arg_generate_kwargs a) w3 I) as Hf4.
  pose proof (frames_dict_or_new fs_dirs (arg_generate_kwargs a) w3 I) as Hd4.
  rewrite Hgk in Hf4, Hd4.
  pose proof (frames_dict_update fs_files gk
                [("temperature", PFloat (arg_temperature a));
                 ("max_tokens", PInt (arg_max_new_tokens a))] w4 I) as Hf5.
  pose proof (frames_dict_update fs_dirs gk
                [("temperature", PFloat (arg_temperature a));
                 ("max_tokens", PInt (arg_max_new_tokens a))] w4 I) as Hd5.
  rewrite Hup in Hf5, Hd5. simpl in *.
  apply (exists_in_same _ w4 w5); [done..|]. by apply (exists_in_same _ w3 w4).
Qed.

(** C8.  Without an explicit [model_path] the constructor settles on
    [os.path.join(cache_root, "models", os.path.basename(model_url))]; for
    a cache root written without a trailing separator this is the string
    [cache_root/models/basename], in the directory [cache_root/models].  A
    construction that succeeds records this path and finds the model
    there.  When the model is not there yet, and no regular file stands in
    the way of the directories, the directory of the path exists after the
    call, whether or not the download then succeeds. *)
Theorem init_cache_path a w :
  arg_model_path a = None →
  let p := cached_model_path cache_root (arg_model_url a) in
  p = PosixPath.join cache_root ["models"; PosixPath.basename (arg_model_url a)]
  ∧ (cache_root ≠ "" → PosixPath.ends_with_sep cache_root = false →
     p = cache_root +:+ "/models/" +:+ PosixPath.basename (arg_model_url a)
     ∧ PosixPath.dirname p = cache_root +:+ "/models")
  ∧ (∀ self w', init a w = (Ok self, w') →
                model_path self = Some p ∧ exists_in p w')
  ∧ (llama_cpp_installed = true → ¬ exists_in p w →
     can_makedirs cache_root w → can_makedirs (PosixPath.dirname p) w →
     PosixPath.dirname p ∈ fs_dirs (init a w).2).
Proof.
  intros Hnone p. split; [done|]. split; [|split].
  - intros Hc Hend.
    assert (p = cache_root +:+ "/models/" +:+ PosixPath.basename (arg_model_url a))
      as Hp by (apply PosixPathFacts.join_models;
                auto using PosixPathFacts.basename_no_sep).
    split; [done|]. rewrite Hp.
    apply PosixPathFacts.dirname_models, PosixPathFacts.basename_no_sep.
  - intros self w' Hinit. apply init_Ok_model_path in Hinit.
    unfold resolved_path in Hinit. by rewrite Hnone in Hinit.
  - intros Hinst Hmissing Hroot Hdir. unfold __init__, import_llama_cpp.
    rewrite Hinst, bind_pass.
    destruct (dict_or_new_total (arg_model_kwargs a) w) as (mk & w1 & E1).
    pose proof (frames_dict_or_new fs_files (arg_model_kwargs a) w I) as Hfiles.
    pose proof (frames_dict_or_new fs_dirs (arg_model_kwargs a) w I) as Hdirs.
    rewrite E1 in Hfiles, Hdirs. simpl in *.
    rewrite (bind_Ok _ _ _ _ _ E1).
    rewrite (bind_Ok _ _ _ _ _ (dict_update_eq _ _ _)).
    set (w2 := with_heap _ w1).
    apply (bind_post (λ w, PosixPath.dirname p ∈ fs_dirs w)).
    + apply resolve_model_makes_dir; [done| |by apply (can_makedirs_same _ w w1)..].
      intros Hex. apply Hmissing. by apply (exists_in_same p w w1).
    + intros [p' e] w3 Hin.
      assert (frames always (same fs_dirs)
                (let* generate_kwargs := dict_or_new (arg_generate_kwargs a) in
                 let* _ := dict_update generate_kwargs
                             [("temperature", PFloat (arg_temperature a));
                              ("max_tokens", PInt (arg_max_new_tokens a))] in
                 super_init a p'
                   (default generic_messages_to_prompt (arg_messages_to_prompt a))
                   (default (λ x, x) (arg_completion_to_prompt a))
                   generate_kwargs mk e)) as Htail.
      { apply frames_bind; [apply _|done|by apply frames_dict_or_new|intros gk].
        apply frames_bind; [apply _|done|by apply frames_dict_update|intros _].
        apply frames_super_init. apply _. }
      by rewrite (Htail w3 I).
Qed.

(** *** The two dictionaries *)

Lemma frames_resolve_model_heap a mk : frames always (same heap) (resolve a mk).
Proof.
  unfold resolve_model. destruct (arg_model_path a) as [p|].
  - apply frames_bind; [apply _|done|apply frames_path_exists|intros present].
    destruct present; simpl; [|apply frames_raise; apply _].
    apply frames_bind; [apply _|done|apply frames_Llama|intros e].
    apply frames_ret; apply _.
  - apply frames_bind; [apply _|done|by apply frames_get_cache_dir|intros c].
    apply frames_bind; [apply _|done|apply frames_path_exists|intros present].
    apply frames_bind; [apply _|done| |intros _].
    { destruct present; simpl;
        [apply frames_pass; apply _|by apply frames_download_to_cache]. }
    apply frames_bind; [apply _|done|apply frames_Llama|intros e].
    apply frames_ret; apply _.
Qed.

Lemma import_llama_cpp_inv u w w0 :
  import_llama_cpp llama_cpp_installed w = (Ok u, w0) → w0 = w.
Proof. unfold import_llama_cpp. destruct llama_cpp_installed; by intros [=]. Qed.

(** A successful construction, cut at its two dictionary updates. *)
Lemma init_Ok_inv a w self w' :
  init a w = (Ok self, w') →
  ∃ mk wm w3 gk wg,
    dict_or_new (arg_model_kwargs a) w = (Ok mk, wm)
    ∧ heap w3
      = heap (dict_update mk [("n_ctx", PInt (arg_context_window a));
                              ("verbose", PBool (arg_verbose a))] wm).2
    ∧ dict_or_new (arg_generate_kwargs a) w3 = (Ok gk, wg)
    ∧ w' = (dict_update gk [("temperature", PFloat (arg_temperature a));
                            ("max_tokens", PInt (arg_max_new_tokens a))] wg).2
    ∧ model_kwargs self = deref mk w'
    ∧ generate_kwargs self = deref gk w'.
Proof.
  unfold __init__.
  intros ([] & w0 & ->%import_llama_cpp_inv & H0)%bind_inv_Ok.
  apply bind_inv_Ok in H0 as (mk & wm & Hmk & H1).
  apply bind_inv_Ok in H1 as ([] & w2 & Hup1 & H2).
  apply bind_inv_Ok in H2 as ([p e] & w3 & Hres & H3).
  apply bind_inv_Ok in H3 as (gk & wg & Hgk & H4).
  apply bind_inv_Ok in H4 as ([] & w5 & Hup2 & Hs).
  unfold super_init in Hs. injection Hs as <- Hw. subst w'.
  exists mk, wm, w3, gk, wg.
  pose proof (frames_resolve_model_heap a mk w2 I) as Hheap.
  rewrite Hres in Hheap. unfold same in Hheap. simpl in Hheap.
  rewrite Hup1, Hup2. simpl. done.
Qed.

(** C9, as the code has it.  After a successful construction: a
    dictionary the caller passed as [model_kwargs] that was not empty holds
    [n_ctx] and [verbose] as configured; one passed as [generate_kwargs]
    that was not empty holds [temperature] and [max_tokens] as configured;
    a dictionary that was empty is still empty, the constructor having
    worked on a new one in its place; and the instance's own two
    dictionaries hold the four entries in every case. *)
Theorem init_updates_nonempty_dicts_in_place a w self w' :
  init a w = (Ok self, w') →
  (∀ lm, arg_model_kwargs a = Some lm → deref lm w ≠ ∅ →
         deref lm w' !! "n_ctx" = Some (PInt (arg_context_window a))
         ∧ deref lm w' !! "verbose" = Some (PBool (arg_verbose a)))
  ∧ (∀ lg, arg_generate_kwargs a = Some lg → deref lg w ≠ ∅ →
           deref lg w' !! "temperature" = Some (PFloat (arg_temperature a))
           ∧ deref lg w' !! "max_tokens" = Some (PInt (arg_max_new_tokens a)))
  ∧ (∀ l, l ∈ dom (heap w) → deref l w = ∅ → deref l w' = ∅)
  ∧ (model_kwargs self !! "n_ctx" = Some (PInt (arg_context_window a))
     ∧ model_kwargs self !! "verbose" = Some (PBool (arg_verbose a))
     ∧ generate_kwargs self !! "temperature" = Some (PFloat (arg_temperature a))
     ∧ generate_kwargs self !! "max_tokens" = Some (PInt (arg_max_new_tokens a))).
Proof.
  intros (mk & wm & w3 & gk & wg & Hmk & Hheap & Hgk & -> & Hsm & Hsg)%init_Ok_inv.
  destruct (dict_or_new_update _
              [("n_ctx", PInt (arg_context_window a));
               ("verbose", PBool (arg_verbose a))] _ _ _ Hmk)
    as (D1 & O1 & In1 & Sub1 & C1).
  destruct (dict_or_new_update _
              [("temperature", PFloat (arg_temperature a));
               ("max_tokens", PInt (arg_max_new_tokens a))] _ _ _ Hgk)
    as (D2 & O2 & In2 & Sub2 & C2).
  set (w2 := (dict_update mk _ wm).2) in *.
  set (w5 := (dict_update gk _ wg).2) in *.
  simpl in D1, D2.
  assert (∀ l, deref l w3 = deref l w2) as H32
    by (intros l; unfold deref; by rewrite Hheap).
  (* the model dictionary keeps its two entries through the second update *)
  assert (deref mk w5 !! "n_ctx" = Some (PInt (arg_context_window a))
          ∧ deref mk w5 !! "verbose" = Some (PBool (arg_verbose a))) as Hmodel.
  { destruct (decide (mk = gk)) as [<-|Hne].
    - destruct C2 as [(_ & _ & Heq)|(Hfresh & _)].
      + rewrite D2, Heq, H32, D1.
        by lookup_inserts.
      + rewrite Hheap in Hfresh. done.
    - rewrite (O2 mk Hne), H32, D1.
      by lookup_inserts. }
  assert (deref gk w5 !! "temperature" = Some (PFloat (arg_temperature a))
          ∧ deref gk w5 !! "max_tokens" = Some (PInt (arg_max_new_tokens a))) as Hgen.
  { rewrite D2. by lookup_inserts. }
  split; [|split; [|split]].
  - intros lm Ha Hne.
    destruct C1 as [([= ->]%(eq_trans (eq_sym Ha)) & _)|(_ & _ & Hempty)]; [done|].
    by destruct Hne, (Hempty lm).
  - intros lg Ha Hne.
    assert (deref lg w3 ≠ ∅) as Hne3.
    { rewrite H32. destruct (decide (lg = mk)) as [->|Hlg].
      - rewrite D1. apply insert_non_empty.
      - by rewrite (O1 lg Hlg). }
    destruct C2 as [([= ->]%(eq_trans (eq_sym Ha)) & _)|(_ & _ & Hempty)]; [done|].
    by destruct Hne3, (Hempty lg).
  - intros l Hin Hempty.
    assert (l ≠ mk) as Hlm.
    { intros ->. destruct C1 as [(_ & Hne & _)|(Hfresh & _)]; done. }
    assert (deref l w3 = ∅) as Hempty3 by (by rewrite H32, (O1 l Hlm)).
    assert (l ≠ gk) as Hlg.
    { intros ->. destruct C2 as [(_ & Hne & _)|(Hfresh & _)]; [done|].
      apply Hfresh. rewrite Hheap. by apply Sub1. }
    by rewrite (O2 l Hlg).
  - rewrite Hsm, Hsg. tauto.
Qed.

End Construction.

Lemma toy_missing_path : ¬ exists_in "/models/missing.bin" Toy.w0.
Proof. intros [Hin|Hin]; revert Hin; by_decide. Qed.

Lemma init_missing_model_path_witness :
  let a := Toy.args DEFAULT_LLAMA_CPP_MODEL (Some "/models/missing.bin") None None in
  let out := __init__ Toy.remote 4300 true "/tmp/llama_index" Toy.Llama_load Toy.contents
               a Toy.w0 in
  out.1 = Raise (ValueError
                   [PStr ("Provided model path does not exist. "
                          +:+ "Please check the path or provide a model_url to download.")])
  ∧ net_log out.2 = net_log Toy.w0
  ∧ fs_files out.2 = fs_files Toy.w0
  ∧ fs_dirs out.2 = fs_dirs Toy.w0.
Proof.
  exact (init_missing_model_path_fails Toy.remote 4300 true "/tmp/llama_index"
           Toy.Llama_load Toy.contents
           (Toy.args DEFAULT_LLAMA_CPP_MODEL (Some "/models/missing.bin") None None)
           Toy.w0 "/models/missing.bin" eq_refl toy_missing_path).
Defined.

Lemma toy_cached_exists :
  exists_in (resolved_path "/tmp/llama_index"
               (Toy.args "http://h/lying.bin" None None None)) Toy.w_cached.
Proof. left. by_decide. Qed.

Lemma init_cached_model_witness :
  let a := Toy.args "http://h/lying.bin" None None None in
  let out := __init__ Toy.remote 4300 true "/tmp/llama_index" Toy.Llama_load Toy.contents
               a Toy.w_cached in
  resolved_path "/tmp/llama_index" a = "/tmp/llama_index/models/lying.bin"
  ∧ net_log out.2 = net_log Toy.w_cached
  ∧ fs_files out.2 = fs_files Toy.w_cached
  ∧ exists_in (resolved_path "/tmp/llama_index" a) out.2.
Proof.
  split; [reflexivity|].
  exact (init_cached_model_skips_download Toy.remote 4300 true "/tmp/llama_index"
           Toy.Llama_load Toy.contents
           (Toy.args "http://h/lying.bin" None None None)
           Toy.w_cached toy_cached_exists).
Defined.

Lemma toy_fresh_missing :
  ¬ exists_in (cached_model_path "/tmp/llama_index" "http://h/lying.bin") Toy.w_fresh.
Proof. intros [Hin|Hin]; revert Hin; by_decide. Qed.

Lemma toy_fresh_can_makedirs p : p ≠ "" → can_makedirs p Toy.w_fresh.
Proof.
  intros Hp. split; [done|]. apply Forall_forall. intros d _.
  change (fs_files Toy.w_fresh) with (∅ : gmap string (list byte)).
  rewrite dom_empty_L. apply not_elem_of_empty.
Qed.

Lemma init_cache_path_witness :
  let a := Toy.args "http://h/lying.bin" None None None in
  let p := "/tmp/llama_index/models/lying.bin" in
  let init := __init__ Toy.remote 4300 true "/tmp/llama_index" Toy.Llama_load Toy.contents a in
  cached_model_path "/tmp/llama_index" (arg_model_url a) = p
  ∧ PosixPath.dirname p = "/tmp/llama_index/models"
  ∧ (∀ self w', init Toy.w_fresh = (Ok self, w') →
                model_path self = Some p ∧ exists_in p w')
  ∧ "/tmp/llama_index/models" ∈ fs_dirs (init Toy.w_fresh).2.
Proof.
  intros a p init.
  destruct (init_cache_path Toy.remote 4300 true "/tmp/llama_index" Toy.Llama_load
              Toy.contents a Toy.w_fresh eq_refl) as (_ & Hstring & Hok & Hdir).
  assert ("/tmp/llama_index" ≠ "") as Hroot by done.
  destruct (Hstring Hroot eq_refl) as [Hp Hd].
  split; [exact Hp|]. split; [exact Hd|]. split; [exact Hok|].
  change "/tmp/llama_index/models"
    with (PosixPath.dirname (cached_model_path "/tmp/llama_index" (arg_model_url a))).
  apply (Hdir eq_refl toy_fresh_missing); apply toy_fresh_can_makedirs.
  - exact Hroot.
  - intros Hempty. vm_compute in Hempty. discriminate Hempty.
Defined.

Lemma init_updates_dicts_witness :
  let a := Toy.args "http://h/lying.bin" (Some "/tmp/llama_index/models/lying.bin")
             (Some 3%positive) (Some 1%positive) in
  ∃ self w',
    __init__ Toy.remote 4300 true "/tmp/llama_index" Toy.Llama_load Toy.contents
      a Toy.w_cached = (Ok self, w')
    ∧ (deref 1%positive w' !! "n_ctx" = Some (PInt 3900)
       ∧ deref 1%positive w' !! "verbose" = Some (PBool true))
    ∧ (deref 3%positive w' !! "temperature" = Some (PFloat (S754_zero false))
       ∧ deref 3%positive w' !! "max_tokens" = Some (PInt 256))
    ∧ deref 2%positive w' = ∅.
Proof.
  intros a. eexists _, _. split; [vm_compute; reflexivity|].
  edestruct (init_updates_nonempty_dicts_in_place Toy.remote 4300 true "/tmp/llama_index"
               Toy.Llama_load Toy.contents a Toy.w_cached)
    as (Hmodel & Hgen & Hempty & _); [vm_compute; reflexivity|].
  split; [|split].
  - apply (Hmodel 1%positive eq_refl). by_decide.
  - apply (Hgen 3%positive eq_refl). by_decide.
  - apply (Hempty 2%positive); [by_decide|reflexivity].
Defined.

(** C9, as stated, fails.  The caller passes an empty dictionary as
    [model_kwargs]; the construction succeeds and leaves that dictionary
    empty, without [n_ctx] or [verbose]. *)
Lemma init_empty_dict_not_updated_counterexample :
  let a := Toy.args "http://h/lying.bin" (Some "/tmp/llama_index/models/lying.bin")
             None (Some 2%positive) in
  let out := __init__ Toy.remote 4300 true "/tmp/llama_index" Toy.Llama_load Toy.contents
               a Toy.w_cached in
  heap Toy.w_cached !! 2%positive = Some ∅
  ∧ is_Ok out.1 = true
  ∧ deref 2%positive out.2 !! "n_ctx" = None
  ∧ deref 2%positive out.2 !! "verbose" = None.
Proof. repeat split; vm_compute; reflexivity. Qed.

(** * Further properties *)

(** ** The download routine: what it touches and what it raises *)

#[export] Instance off_target_preorder p : PreOrder (off_target p).
Proof.
  split.
  - by intros w q _.
  - intros w1 w2 w3 H12 H23 q Hq. by rewrite (H23 q Hq), (H12 q Hq).
Qed.

Lemma same_files_off_target p w w' : same fs_files w w' → off_target p w w'.
Proof. unfold same. intros Hf q _. by rewrite Hf. Qed.

Lemma open_wb_off_target p : frames always (off_target p) (Os.open_wb p).
Proof.
  intros w _ q Hq. unfold Os.open_wb. repeat case_match; simpl; try done.
  by rewrite lookup_insert_ne.
Qed.

Lemma write_off_target p chunk : frames always (off_target p) (Os.write p chunk).
Proof. intros w _ q Hq. simpl. by rewrite lookup_alter_ne. Qed.

Lemma remove_off_target p : frames always (off_target p) (Os.remove p).
Proof.
  intros w _ q Hq. unfold Os.remove. repeat case_match; simpl; try done.
  by rewrite lookup_delete_ne.
Qed.

Lemma write_chunks_off_target p chunks err :
  frames always (off_target p) (write_chunks p chunks err).
Proof.
  induction chunks as [|chunk chunks IH]; simpl.
  - destruct err; [apply frames_raise | apply frames_pass]; apply _.
  - apply frames_bind; [apply _|done|apply write_off_target|done].
Qed.

Lemma write_response_off_target max_str_digits r p :
  frames always (off_target p) (write_response max_str_digits r p).
Proof.
  unfold write_response.
  apply frames_bind; [apply _|done|apply open_wb_off_target|intros _].
  apply frames_bind; [apply _|done| |intros n].
  { eapply frames_weaken; [done|apply same_files_off_target|apply frames_py_int]. }
  apply frames_bind; [apply _|done| |intros _].
  { eapply frames_weaken;
      [done|apply same_files_off_target|apply frames_check_total_size]. }
  apply frames_bind; [apply _|done| |intros _; apply write_chunks_off_target].
  destruct (true_div_overflows n 1000); [apply frames_raise | apply frames_pass]; apply _.
Qed.

Lemma py_int_inv max_str_digits s n (w w' : World) :
  py_int max_str_digits s w = (Ok n, w') →
  PyInt.int_of_str max_str_digits s = Some n ∧ w' = w.
Proof.
  unfold py_int. destruct (PyInt.int_of_str _ _); [|done]. by intros [= -> <-].
Qed.

Lemma check_total_size_inv h n u (w w' : World) :
  check_total_size h n w = (Ok u, w') → 1000000 ≤ n ∧ w' = w.
Proof.
  unfold check_total_size. destruct (n <? 1000 * 1000) eqn:Hlt; [done|].
  apply Z.ltb_ge in Hlt. intros [= <-]. split; [lia|done].
Qed.

Section DownloadFurther.

Variable remote : string → result Response.
Variable max_str_digits : nat.

Lemma download_url_off_target url p :
  frames always (off_target p) (_download_url remote max_str_digits url p).
Proof.
  intros w _. unfold _download_url, download_try, bind at 1, requests_get.
  set (w0 := with_net_log (url :: net_log w) w).
  assert (off_target p w w0) as H0 by (by intros q _).
  assert (frames always (off_target p)
            (let* _ := Os.remove p in
             raise (A:=unit) (ValueError [PStr "Download incomplete."]))) as Hfin.
  { apply frames_bind; [apply _|done|apply remove_off_target|intros _].
    apply frames_raise; apply _. }
  destruct (remote url) as [r|e]; simpl.
  - pose proof (write_response_off_target max_str_digits r p w0 I) as Hw.
    destruct (write_response max_str_digits r p w0) as [[[]|e] w1]; simpl in *.
    + by etrans.
    + etrans; [exact H0|]. etrans; [exact Hw|]. by apply Hfin.
  - etrans; [exact H0|]. by apply Hfin.
Qed.

(** X1.  The routine asks the network exactly once, changes no directory
    and no dictionary, and the only file it can create, change or delete is
    the one at the target path, whether it returns or raises. *)
Theorem download_url_touches_only_target url p w q :
  q ≠ p →
  let w' := (_download_url remote max_str_digits url p w).2 in
  fs_files w' !! q = fs_files w !! q
  ∧ fs_dirs w' = fs_dirs w
  ∧ heap w' = heap w
  ∧ net_log w' = url :: net_log w.
Proof.
  intros Hq w'. split; [|split; [|split]].
  - by apply (download_url_off_target url p w I q).
  - apply (frames_download_url remote max_str_digits fs_dirs url p w I).
  - apply (frames_download_url remote max_str_digits heap url p w I).
  - apply download_url_net_log.
Qed.

(** X2.  Whatever fails inside the routine, the error that caused it never
    reaches the caller: the routine raises [ValueError("Download
    incomplete.")], or else the error that [os.remove] raised in the
    [finally] block. *)
Theorem download_url_raises_only url p w e w' :
  _download_url remote max_str_digits url p w = (Raise e, w') →
  e = ValueError [PStr "Download incomplete."]
  ∨ Os.remove p w' = (Raise e, w').
Proof.
  unfold _download_url.
  destruct (download_try remote max_str_digits url p w) as [[[]|e0] w1]; simpl;
    [done|].
  unfold bind. destruct (Os.remove p w1) as [[[]|e1] w2] eqn:Hrm; simpl.
  - intros [= <- <-]. by left.
  - intros [= <- <-]. right.
    assert (w2 = w1) as ->; [|done].
    revert Hrm. unfold Os.remove. repeat case_match; congruence.
Qed.

(** X3.  When the routine returns normally, the network answered, the
    header announced at least 1,000,000 bytes, the transfer ended without
    error, and the target path holds exactly the chunks received, in order:
    the assertion that follows the call in [__init__] cannot fail. *)
Theorem download_url_Ok_inv url p w w' :
  _download_url remote max_str_digits url p w = (Ok (), w') →
  ∃ r n, remote url = Ok r
         ∧ reported_size max_str_digits r = Some n ∧ 1000000 ≤ n
         ∧ iter_error r = None
         ∧ fs_files w' !! p = Some (concat (iter_content r))
         ∧ exists_in p w'.
Proof.
  unfold _download_url.
  destruct (download_try remote max_str_digits url p w) as [[[]|e0] w1] eqn:Htry;
    simpl.
  2: { unfold bind. destruct (Os.remove p w1) as [[[]|e1] w2]; simpl; done. }
  intros [= <-]. unfold download_try, bind at 1, requests_get in Htry.
  destruct (remote url) as [r|e]; [|done]. simpl in Htry.
  unfold write_response in Htry.
  apply bind_inv_Ok in Htry as ([] & w2 & Hopen & H2).
  apply open_wb_inv in Hopen as ->.
  apply bind_inv_Ok in H2 as (n & w3 & [Hsize ->]%py_int_inv & H3).
  apply bind_inv_Ok in H3 as ([] & w4 & [Hn ->]%check_total_size_inv & H4).
  apply bind_inv_Ok in H4 as ([] & w5 & Hfloat & H5).
  destruct (true_div_overflows n 1000); [done|]. injection Hfloat as <-.
  erewrite write_chunks_spec in H5 by (simpl; apply lookup_insert_eq).
  destruct (iter_error r) as [e|] eqn:Herr; [done|]. injection H5 as <-.
  exists r, n. simpl. rewrite lookup_insert_eq.
  repeat split; try done.
  left. simpl. rewrite dom_insert_L. apply elem_of_union_l, elem_of_singleton. done.
Qed.

(** X4.  A request that fails when a file is already at the target path:
    the [finally] block removes that older file, and the routine raises
    [ValueError("Download incomplete.")]. *)
Theorem download_url_removes_older_file url p w e :
  remote url = Raise e → p ∈ dom (fs_files w) →
  _download_url remote max_str_digits url p w
  = (Raise (ValueError [PStr "Download incomplete."]),
     with_files (delete p (fs_files w)) (with_net_log (url :: net_log w) w)).
Proof.
  intros Hr Hin. unfold _download_url, download_try, bind at 1, requests_get.
  rewrite Hr. simpl. unfold bind, Os.remove. simpl.
  by rewrite bool_decide_eq_true_2.
Qed.

(** X5.  A transfer that breaks off after the size check passed, be it by
    a network error or by an interrupt: the chunks written so far are
    removed with the file and the routine raises [ValueError("Download
    incomplete.")]. *)
Theorem download_url_transfer_cut url p w r n e :
  remote url = Ok r → can_open p w →
  reported_size max_str_digits r = Some n → 1000000 ≤ n →
  true_div_overflows n 1000 = false →
  iter_error r = Some e →
  _download_url remote max_str_digits url p w
  = (Raise (ValueError [PStr "Download incomplete."]),
     with_files (delete p (fs_files w)) (with_net_log (url :: net_log w) w)).
Proof.
  intros Hr Hopen Hsize Hn Hfloat Herr.
  assert (can_open p (with_net_log (url :: net_log w) w)) as Hopen' by done.
  pose proof (write_response_large r p _ n Hopen' Hsize Hn Hfloat) as Hw.
  rewrite Herr in Hw.
  exact (download_url_fails_after_open remote max_str_digits url p w r e _ Hr Hw).
Qed.

(** X6.  A [Content-Length] that [int] does not accept: the [ValueError] of
    [int] is caught like any other, the file just opened is removed and the
    routine raises [ValueError("Download incomplete.")]. *)
Theorem download_url_bad_content_length url p w r :
  remote url = Ok r → can_open p w →
  reported_size max_str_digits r = None →
  _download_url remote max_str_digits url p w
  = (Raise (ValueError [PStr "Download incomplete."]),
     with_files (delete p (fs_files w)) (with_net_log (url :: net_log w) w)).
Proof.
  intros Hr Hopen Hsize.
  assert (can_open p (with_net_log (url :: net_log w) w)) as Hopen' by done.
  pose proof (write_response_not_int r p _ Hopen' Hsize) as Hw.
  exact (download_url_fails_after_open remote max_str_digits url p w r _ _ Hr Hw).
Qed.

End DownloadFurther.

Lemma toy_can_open_m : can_open "/tmp/llama_index/models/m.bin" Toy.w0.
Proof. repeat split; [done | by_decide | right; by_decide]. Qed.

Lemma download_url_touches_only_target_witness :
  let p := "/tmp/llama_index/models/small.bin" in
  let q := "/tmp/llama_index/models/lying.bin" in
  let w' := (_download_url Toy.remote 4300 "http://h/small.bin" p Toy.w_cached).2 in
  fs_files w' !! q = Some [x41; x42; x43]
  ∧ fs_dirs w' = fs_dirs Toy.w_cached
  ∧ heap w' = heap Toy.w_cached
  ∧ net_log w' = ["http://h/small.bin"].
Proof.
  intros p q w'.
  assert (q ≠ p) as Hq by done.
  exact (download_url_touches_only_target Toy.remote 4300 "http://h/small.bin"
           p Toy.w_cached q Hq).
Defined.

Lemma download_url_raises_only_witness :
  let p := "/tmp/llama_index/models/m.bin" in
  let w' := with_files (delete p (fs_files Toy.w0))
              (with_net_log ["http://h/m.bin"] Toy.w0) in
  _download_url ToyMore.remote_interrupted 4300 "http://h/m.bin" p Toy.w0
  = (Raise (ValueError [PStr "Download incomplete."]), w')
  ∧ (ValueError [PStr "Download incomplete."] = ValueError [PStr "Download incomplete."]
     ∨ Os.remove p w' = (Raise (ValueError [PStr "Download incomplete."]), w')).
Proof.
  intros p w'.
  assert (_download_url ToyMore.remote_interrupted 4300 "http://h/m.bin" p Toy.w0
          = (Raise (ValueError [PStr "Download incomplete."]), w')) as Hrun
    by (vm_compute; reflexivity).
  split; [exact Hrun|].
  exact (download_url_raises_only ToyMore.remote_interrupted 4300 "http://h/m.bin"
           p Toy.w0 _ w' Hrun).
Defined.

Lemma download_url_Ok_inv_witness :
  let p := "/tmp/llama_index/models/m.bin" in
  let w' := with_files (<[p := [x47; x47; x55; x46]]> (fs_files Toy.w0))
              (with_net_log ["http://h/m.bin"] Toy.w0) in
  _download_url ToyMore.remote_good 4300 "http://h/m.bin" p Toy.w0 = (Ok (), w')
  ∧ ∃ r n, ToyMore.remote_good "http://h/m.bin" = Ok r
           ∧ reported_size 4300 r = Some n ∧ 1000000 ≤ n
           ∧ iter_error r = None
           ∧ fs_files w' !! p = Some (concat (iter_content r))
           ∧ exists_in p w'.
Proof.
  intros p w'.
  assert (_download_url ToyMore.remote_good 4300 "http://h/m.bin" p Toy.w0
          = (Ok (), w')) as Hrun by (vm_compute; reflexivity).
  split; [exact Hrun|].
  exact (download_url_Ok_inv ToyMore.remote_good 4300 "http://h/m.bin" p Toy.w0 w' Hrun).
Defined.

Lemma toy_stale_file :
  "/tmp/llama_index/models/unreachable.bin" ∈ dom (fs_files ToyMore.w_stale).
Proof. by_decide. Qed.

Lemma download_url_removes_older_file_witness :
  let p := "/tmp/llama_index/models/unreachable.bin" in
  fs_files ToyMore.w_stale !! p = Some [x6f; x6c; x64]
  ∧ _download_url Toy.remote 4300 "http://h/unreachable.bin" p ToyMore.w_stale
    = (Raise (ValueError [PStr "Download incomplete."]),
       with_files (delete p (fs_files ToyMore.w_stale))
         (with_net_log ["http://h/unreachable.bin"] ToyMore.w_stale)).
Proof.
  intros p. split; [reflexivity|].
  exact (download_url_removes_older_file Toy.remote 4300 "http://h/unreachable.bin"
           p ToyMore.w_stale (RequestException "connection refused")
           eq_refl toy_stale_file).
Defined.

Lemma download_url_transfer_cut_witness :
  let p := "/tmp/llama_index/models/m.bin" in
  _download_url ToyMore.remote_cut 4300 "http://h/m.bin" p Toy.w0
  = (Raise (ValueError [PStr "Download incomplete."]),
     with_files (delete p (fs_files Toy.w0)) (with_net_log ["http://h/m.bin"] Toy.w0))
  ∧ _download_url ToyMore.remote_interrupted 4300 "http://h/m.bin" p Toy.w0
    = (Raise (ValueError [PStr "Download incomplete."]),
       with_files (delete p (fs_files Toy.w0)) (with_net_log ["http://h/m.bin"] Toy.w0)).
Proof.
  intros p. split.
  - exact (download_url_transfer_cut ToyMore.remote_cut 4300 "http://h/m.bin" p
             Toy.w0 _ 2000000 (RequestException "connection broken")
             eq_refl toy_can_open_m eq_refl ltac:(done) eq_refl eq_refl).
  - exact (download_url_transfer_cut ToyMore.remote_interrupted 4300 "http://h/m.bin" p
             Toy.w0 _ 2000000 KeyboardInterrupt
             eq_refl toy_can_open_m eq_refl ltac:(done) eq_refl eq_refl).
Defined.

Lemma download_url_bad_content_length_witness :
  let p := "/tmp/llama_index/models/m.bin" in
  _download_url ToyMore.remote_garbled 4300 "http://h/m.bin" p Toy.w0
  = (Raise (ValueError [PStr "Download incomplete."]),
     with_files (delete p (fs_files Toy.w0)) (with_net_log ["http://h/m.bin"] Toy.w0)).
Proof.
  intros p.
  exact (download_url_bad_content_length ToyMore.remote_garbled 4300 "http://h/m.bin" p
           Toy.w0 _ eq_refl toy_can_open_m eq_refl).
Defined.

(** ** Generation: state, errors and the shape of a stream *)

Lemma gen_stops_without_choice t good bad rest err :
  Forall (λ chunk, choices chunk ≠ []) good → choices bad = [] →
  yielded (gen t (good ++ bad :: rest) err) = yielded (gen t good None)
  ∧ raised (gen t (good ++ bad :: rest) err)
    = Some (IndexError "list index out of range").
Proof.
  intros Hgood Hbad. revert t.
  induction Hgood as [|c good Hc _ IH]; intros t; simpl.
  - by rewrite Hbad.
  - destruct (choices c) as [|choice more]; [done|]. simpl.
    destruct (IH (t +:+ choice_text choice)) as [-> ->]. done.
Qed.

Lemma gen_raw_of_chunk t cs err i chunk :
  Forall (λ chunk, choices chunk ≠ []) cs → cs !! i = Some chunk →
  ∃ r, yielded (gen t cs err) !! i = Some r ∧ raw r = Some chunk.
Proof.
  intros Hall. revert t i.
  induction Hall as [|c cs Hc _ IH]; intros t i; simpl; [done|].
  destruct (choices c) as [|choice more]; [done|]. simpl.
  destruct i as [|i]; simpl.
  - intros [= <-]. eauto.
  - apply IH.
Qed.

Section GenerationFurther.

Context {Engine : Type}.
Variable Llama_call : Engine → string → kwargs → result EngineOutput * Engine.

(** X7.  A call to [complete] or to [stream_complete], whether it returns
    or raises, changes two things in the instance and nothing else: the
    [stream] entry of the generation options, which stays as the call set
    it ([False] after [complete], [True] after [stream_complete]), and the
    state of the engine.  What [metadata] reports is as before. *)
Theorem generation_changes_only_stream_flag (self : LlamaCPP Engine) (prompt : string) :
  let after_complete := (complete Llama_call prompt self).2 in
  let after_stream := (stream_complete Llama_call prompt self).2 in
  after_complete
  = set_model (_model after_complete)
      (set_generate_kwargs (<["stream" := PBool false]> (generate_kwargs self)) self)
  ∧ after_stream
    = set_model (_model after_stream)
        (set_generate_kwargs (<["stream" := PBool true]> (generate_kwargs self)) self)
  ∧ metadata after_complete = metadata self
  ∧ metadata after_stream = metadata self.
Proof.
  unfold complete, stream_complete, bind, generate_kwargs_update, modify, get,
    call_model.
  simpl. repeat split.
  all: case_bool_decide; simpl; [by destruct self|].
  all: destruct (Llama_call _ _ _) as [[[response|cs err]|e] engine]; simpl;
    try destruct (choices response); by destruct self.
Qed.

(** X8.  An error of the engine comes out of [complete] as it is, and out
    of [chat] on messages that format to the same prompt; the [stream]
    entry has been set and the engine has moved on all the same. *)
Theorem engine_error_propagates
    (self : LlamaCPP Engine) (prompt : string) (e : exn) (engine' : Engine) :
  "prompt" ∉ dom (generate_kwargs self) →
  Llama_call (_model self) (completion_to_prompt self prompt)
    (<["stream" := PBool false]> (generate_kwargs self))
  = (Raise e, engine') →
  let self' := set_model engine'
                 (set_generate_kwargs
                    (<["stream" := PBool false]> (generate_kwargs self)) self) in
  complete Llama_call prompt self = (Raise e, self')
  ∧ ∀ messages, messages_to_prompt self messages = prompt →
                chat Llama_call messages self = (Raise e, self').
Proof.
  intros Hkey Hcall self'.
  assert (complete Llama_call prompt self = (Raise e, self')) as Hc.
  { unfold complete, bind, generate_kwargs_update, modify, get, call_model. simpl.
    rewrite bool_decide_eq_false_2.
    2: { rewrite dom_insert_L, not_elem_of_union, not_elem_of_singleton. done. }
    by rewrite Hcall. }
  split; [done|]. intros messages Hm.
  unfold chat, bind at 1, get. simpl. rewrite Hm. unfold bind. by rewrite Hc.
Qed.

(** X9.  A completion that carries no choice: [complete] raises
    [IndexError], after the engine has run. *)
Theorem complete_without_choice_raises
    (self : LlamaCPP Engine) (prompt : string)
    (response : Completion) (engine' : Engine) :
  "prompt" ∉ dom (generate_kwargs self) →
  Llama_call (_model self) (completion_to_prompt self prompt)
    (<["stream" := PBool false]> (generate_kwargs self))
  = (Ok (Whole response), engine') →
  choices response = [] →
  complete Llama_call prompt self
  = (Raise (IndexError "list index out of range"),
     set_model engine'
       (set_generate_kwargs (<["stream" := PBool false]> (generate_kwargs self)) self)).
Proof.
  intros Hkey Hcall Hnone.
  unfold complete, bind, generate_kwargs_update, modify, get, call_model. simpl.
  rewrite bool_decide_eq_false_2.
  2: { rewrite dom_insert_L, not_elem_of_union, not_elem_of_singleton. done. }
  rewrite Hcall. simpl. by rewrite Hnone.
Qed.

(** X10.  Generation options that hold a ["prompt"] entry clash with the
    [prompt] keyword of the call: [complete] and [stream_complete] both raise
    [TypeError], and the engine is not called. *)
Theorem prompt_entry_blocks_generation (self : LlamaCPP Engine) (prompt : string) :
  "prompt" ∈ dom (generate_kwargs self) →
  complete Llama_call prompt self
  = (Raise (TypeError "got multiple values for keyword argument 'prompt'"),
     set_generate_kwargs (<["stream" := PBool false]> (generate_kwargs self)) self)
  ∧ stream_complete Llama_call prompt self
    = (Raise (TypeError "got multiple values for keyword argument 'prompt'"),
       set_generate_kwargs (<["stream" := PBool true]> (generate_kwargs self)) self)
  ∧ _model (complete Llama_call prompt self).2 = _model self
  ∧ _model (stream_complete Llama_call prompt self).2 = _model self.
Proof.
  intros Hkey.
  unfold complete, stream_complete, bind, generate_kwargs_update, modify, get,
    call_model.
  simpl. rewrite !bool_decide_eq_true_2; [done|..].
  all: rewrite dom_insert_L; by apply elem_of_union_r.
Qed.

(** X11.  When every chunk of the engine's stream has a choice, the
    generator yields one response per chunk, in the order of the chunks and
    each with its chunk as [raw], and it ends as the engine's iterator ends:
    normally, or with the iterator's exception after the last chunk. *)
Theorem stream_complete_one_response_per_chunk
    (self : LlamaCPP Engine) (prompt : string)
    (cs : list Completion) (err : option exn) (engine' : Engine) :
  "prompt" ∉ dom (generate_kwargs self) →
  Llama_call (_model self) (completion_to_prompt self prompt)
    (<["stream" := PBool true]> (generate_kwargs self))
  = (Ok (Chunks cs err), engine') →
  Forall (λ chunk, choices chunk ≠ []) cs →
  ∃ g, (stream_complete Llama_call prompt self).1 = Ok g
       ∧ length (yielded g) = length cs
       ∧ raised g = err
       ∧ ∀ i chunk, cs !! i = Some chunk →
                    ∃ r, yielded g !! i = Some r ∧ raw r = Some chunk.
Proof.
  intros Hkey Hcall Hall. exists (gen "" cs err).
  split.
  { unfold stream_complete, bind, generate_kwargs_update, modify, get, call_model.
    simpl. rewrite bool_decide_eq_false_2.
    2: { rewrite dom_insert_L, not_elem_of_union, not_elem_of_singleton. done. }
    by rewrite Hcall. }
  destruct (gen_all_chunks "" cs err Hall) as [Hlen Hraised].
  split; [done|]. split; [done|].
  intros i chunk Hi. by apply gen_raw_of_chunk.
Qed.

(** X12.  A chunk without a choice stops the stream: the generator yields
    the responses of the chunks before it, exactly as if the stream had
    ended there, and then raises [IndexError]; the chunks after it are never
    looked at. *)
Theorem stream_complete_stops_at_chunk_without_choice
    (self : LlamaCPP Engine) (prompt : string)
    (good rest : list Completion) (bad : Completion)
    (err : option exn) (engine' : Engine) :
  "prompt" ∉ dom (generate_kwargs self) →
  Llama_call (_model self) (completion_to_prompt self prompt)
    (<["stream" := PBool true]> (generate_kwargs self))
  = (Ok (Chunks (good ++ bad :: rest) err), engine') →
  Forall (λ chunk, choices chunk ≠ []) good → choices bad = [] →
  ∃ g, (stream_complete Llama_call prompt self).1 = Ok g
       ∧ yielded g = yielded (gen "" good None)
       ∧ length (yielded g) = length good
       ∧ raised g = Some (IndexError "list index out of range").
Proof.
  intros Hkey Hcall Hgood Hbad. exists (gen "" (good ++ bad :: rest) err).
  split.
  { unfold stream_complete, bind, generate_kwargs_update, modify, get, call_model.
    simpl. rewrite bool_decide_eq_false_2.
    2: { rewrite dom_insert_L, not_elem_of_union, not_elem_of_singleton. done. }
    by rewrite Hcall. }
  destruct (gen_stops_without_choice "" good bad rest err Hgood Hbad) as [-> ->].
  split; [done|]. split; [|done].
  by destruct (gen_all_chunks "" good None Hgood) as [-> _].
Qed.

(** X13.  [stream_chat] runs [stream_complete] on the prompt that the
    instance's own formatter makes of the messages, and handles no failure
    itself: it leaves the instance in the state [stream_complete] leaves it
    in, raises exactly when [stream_complete] raises, and raises the same
    exception. *)
Theorem stream_chat_follows_stream_complete
    (self : LlamaCPP Engine) (messages : list ChatMessage) :
  let streamed := stream_complete Llama_call (messages_to_prompt self messages) self in
  (stream_chat Llama_call messages self).2 = streamed.2
  ∧ is_Ok (stream_chat Llama_call messages self).1 = is_Ok streamed.1
  ∧ ∀ e, streamed.1 = Raise e → (stream_chat Llama_call messages self).1 = Raise e.
Proof.
  intros streamed.
  assert (stream_chat Llama_call messages self
          = (result_map stream_completion_response_to_chat_response streamed.1,
             streamed.2)) as ->.
  { unfold stream_chat, bind at 1, get. simpl. unfold bind. fold streamed.
    by destruct streamed as [[g|e0] self']. }
  destruct streamed as [[g|e0] self']; simpl.
  - split; [done|]. split; [done|]. by intros e.
  - split; [done|]. split; [done|]. by intros e [= ->].
Qed.

End GenerationFurther.

Lemma toy_self0_no_prompt_entry : "prompt" ∉ dom (generate_kwargs Toy.self0).
Proof. by_decide. Qed.

Lemma engine_error_propagates_witness :
  let self' := set_model 1%nat
                 (set_generate_kwargs
                    (<["stream" := PBool false]> (generate_kwargs Toy.self0)) Toy.self0) in
  complete ToyMore.Llama_call_failing "hi" Toy.self0
  = (Raise (EngineError "out of memory"), self')
  ∧ ∀ messages, messages_to_prompt Toy.self0 messages = "hi" →
                chat ToyMore.Llama_call_failing messages Toy.self0
                = (Raise (EngineError "out of memory"), self').
Proof.
  exact (engine_error_propagates ToyMore.Llama_call_failing Toy.self0 "hi"
           (EngineError "out of memory") 1%nat toy_self0_no_prompt_entry eq_refl).
Defined.

Lemma complete_without_choice_witness :
  complete ToyMore.Llama_call_no_choice "hi" Toy.self0
  = (Raise (IndexError "list index out of range"),
     set_model 1%nat
       (set_generate_kwargs
          (<["stream" := PBool false]> (generate_kwargs Toy.self0)) Toy.self0)).
Proof.
  exact (complete_without_choice_raises ToyMore.Llama_call_no_choice Toy.self0 "hi"
           ToyMore.no_choice 1%nat toy_self0_no_prompt_entry eq_refl eq_refl).
Defined.

Lemma toy_prompt_entry : "prompt" ∈ dom (generate_kwargs ToyMore.self_prompt_key).
Proof. by_decide. Qed.

Lemma prompt_entry_blocks_generation_witness :
  let self := ToyMore.self_prompt_key in
  complete Toy.Llama_call "hi" self
  = (Raise (TypeError "got multiple values for keyword argument 'prompt'"),
     set_generate_kwargs (<["stream" := PBool false]> (generate_kwargs self)) self)
  ∧ stream_complete Toy.Llama_call "hi" self
    = (Raise (TypeError "got multiple values for keyword argument 'prompt'"),
       set_generate_kwargs (<["stream" := PBool true]> (generate_kwargs self)) self)
  ∧ _model (complete Toy.Llama_call "hi" self).2 = 0%nat
  ∧ _model (stream_complete Toy.Llama_call "hi" self).2 = 0%nat.
Proof.
  exact (prompt_entry_blocks_generation Toy.Llama_call ToyMore.self_prompt_key "hi"
           toy_prompt_entry).
Defined.

Lemma stream_complete_one_response_per_chunk_witness :
  let cs := [Toy.one_choice "Hel"; Toy.one_choice "lo"; Toy.one_choice "!"] in
  ∃ g, (stream_complete Toy.Llama_call "hi" Toy.self0).1 = Ok g
       ∧ length (yielded g) = 3%nat
       ∧ raised g = None
       ∧ ∀ i chunk, cs !! i = Some chunk →
                    ∃ r, yielded g !! i = Some r ∧ raw r = Some chunk.
Proof.
  intros cs.
  apply (stream_complete_one_response_per_chunk Toy.Llama_call Toy.self0 "hi"
           cs None 1%nat toy_self0_no_prompt_entry eq_refl).
  repeat constructor; done.
Defined.

Lemma stream_complete_stops_witness :
  ∃ g, (stream_complete ToyMore.Llama_call_no_choice "hi" Toy.self0).1 = Ok g
       ∧ yielded g = yielded (gen "" [Toy.one_choice "a"] None)
       ∧ length (yielded g) = 1%nat
       ∧ raised g = Some (IndexError "list index out of range").
Proof.
  apply (stream_complete_stops_at_chunk_without_choice ToyMore.Llama_call_no_choice
           Toy.self0 "hi" [Toy.one_choice "a"] [Toy.one_choice "b"] ToyMore.no_choice
           None 1%nat toy_self0_no_prompt_entry eq_refl).
  - repeat constructor; done.
  - reflexivity.
Defined.

(** ** The cache path, for any cache root *)

Module CachePathFacts.
Import PosixPath.

Lemma rstrip_sep_app_sep y : rstrip_sep (y +:+ "/") = rstrip_sep y.
Proof.
  induction y as [|c y IH]; [done|].
  rewrite str_app_cons. simpl. by rewrite IH.
Qed.

Lemma rstrip_sep_id y : ends_with_sep y = false → rstrip_sep y = y.
Proof.
  induction y as [|c y IH]; [done|]. simpl.
  destruct y as [|c' y'].
  - simpl. by intros ->.
  - intros Hend. rewrite (IH Hend). done.
Qed.

Lemma all_sep_ends y : y ≠ "" → all_sep y = true → ends_with_sep y = true.
Proof.
  induction y as [|c y IH]; [done|]. intros _. simpl.
  intros [Hc Hy]%andb_prop. destruct y as [|c' y']; [done|].
  apply IH; done.
Qed.



(** [dirname] and [basename] undo a [join] with a name free of
    separators. *)
Lemma dirname_child y b :
  y ≠ "" → ends_with_sep y = false → rsplit_sep b = None →
  dirname (y +:+ String "/" b) = y ∧ basename (y +:+ String "/" b) = b.
Proof.
  intros Hy Hend Hb. unfold dirname, basename.
  rewrite (PosixPathFacts.rsplit_sep_app_sep y b Hb). split; [|done].
  assert (all_sep (y +:+ "/") = false) as ->.
  { rewrite PosixPathFacts.all_sep_app.
    destruct (all_sep y) eqn:Hall; [|done].
    by rewrite (all_sep_ends y Hy Hall) in Hend. }
  rewrite bool_decide_eq_true_2 by (by destruct y).
  simpl. by rewrite rstrip_sep_app_sep, rstrip_sep_id.
Qed.

Lemma models_dir c :
  join c ["models"] ≠ "" ∧ ends_with_sep (join c ["models"]) = false.
Proof.
  unfold join. simpl. unfold join_step. simpl.
  destruct (bool_decide (c = "") || ends_with_sep c).
  - split; [by destruct c|].
    change (c +:+ "models") with (c +:+ "model" +:+ String "s" "").
    by rewrite <- str_app_assoc, PosixPathFacts.ends_with_sep_app_char.
  - split; [by destruct c|].
    change (c +:+ "/" +:+ "models") with (c +:+ "/model" +:+ String "s" "").
    by rewrite <- str_app_assoc, PosixPathFacts.ends_with_sep_app_char.
Qed.

Lemma join_child c b :
  rsplit_sep b = None → join c ["models"; b] = join c ["models"] +:+ String "/" b.
Proof.
  intros Hb. unfold join. simpl.
  destruct (models_dir c) as [Hne Hend]. unfold join in Hne, Hend. simpl in Hne, Hend.
  unfold join_step at 1. rewrite (PosixPathFacts.rsplit_sep_None_starts b Hb).
  rewrite Hend, bool_decide_eq_false_2 by done. done.
Qed.

End CachePathFacts.

(** X14.  Whatever the cache root and the URL, the path of the cached
    model lies directly in the [models] directory of the cache root and is
    named by the last segment of the URL: [dirname] and [basename] give the
    two parts back. *)
Theorem cached_model_path_parts (cache_dir model_url : string) :
  PosixPath.dirname (cached_model_path cache_dir model_url)
  = PosixPath.join cache_dir ["models"]
  ∧ PosixPath.basename (cached_model_path cache_dir model_url)
    = PosixPath.basename model_url.
Proof.
  unfold cached_model_path.
  rewrite (CachePathFacts.join_child _ _ (PosixPathFacts.basename_no_sep model_url)).
  destruct (CachePathFacts.models_dir cache_dir) as [Hne Hend].
  apply CachePathFacts.dirname_child; auto using PosixPathFacts.basename_no_sep.
Qed.

(** ** The constructor: what it records, reuses and leaves behind *)

Lemma dict_or_new_nonempty l w : deref l w ≠ ∅ → dict_or_new (Some l) w = (Ok l, w).
Proof. intros Hne. unfold dict_or_new. by rewrite bool_decide_eq_false_2. Qed.

Section ConstructionFurther.

Variable remote : string → result Response.
Variable max_str_digits : nat.
Variable llama_cpp_installed : bool.
Variable cache_root : string.
Context {Engine : Type}.
Variable Llama_load : string → option (list byte) → kwargs → result Engine.
Variable generic_messages_to_prompt : list ChatMessage → string.

Local Abbreviation init :=
  (__init__ remote max_str_digits llama_cpp_installed cache_root Llama_load
     generic_messages_to_prompt).
Local Abbreviation resolve := (resolve_model remote max_str_digits cache_root Llama_load).

Lemma init_Ok_record a w self w' :
  init a w = (Ok self, w') →
  self = {| model_url := arg_model_url a;
            model_path := Some (resolved_path cache_root a);
            temperature := arg_temperature a;
            max_new_tokens := arg_max_new_tokens a;
            context_window := arg_context_window a;
            messages_to_prompt :=
              default generic_messages_to_prompt (arg_messages_to_prompt a);
            completion_to_prompt := default (λ x, x) (arg_completion_to_prompt a);
            generate_kwargs := generate_kwargs self;
            model_kwargs := model_kwargs self;
            verbose := arg_verbose a;
            _model := _model self |}.
Proof.
  unfold __init__.
  intros (_ & w0 & _ & H0)%bind_inv_Ok.
  apply bind_inv_Ok in H0 as (mk & w1 & _ & H1).
  apply bind_inv_Ok in H1 as (_ & w2 & _ & H2).
  apply bind_inv_Ok in H2 as ([p e] & w3 & [-> _]%resolve_model_inv & H3).
  apply bind_inv_Ok in H3 as (gk & w4 & _ & H4).
  apply bind_inv_Ok in H4 as (_ & w5 & _ & Hs).
  unfold super_init in Hs. by injection Hs as <- _.
Qed.

(** X15.  After a successful construction, [metadata] reports the context
    window and the maximum number of new tokens the caller gave, and as
    model name the path the constructor settled on: the explicit
    [model_path], or the cache path of the URL. *)
Theorem init_metadata a w self w' :
  init a w = (Ok self, w') →
  metadata self
  = {| meta_context_window := arg_context_window a;
       meta_num_output := arg_max_new_tokens a;
       meta_model_name :=
         Some (match arg_model_path a with
               | Some model_path => model_path
               | None => PosixPath.join cache_root
                           ["models"; PosixPath.basename (arg_model_url a)]
               end) |}.
Proof.
  intros Hinit. rewrite (init_Ok_record a w self w' Hinit).
  unfold metadata, resolved_path, cached_model_path. simpl.
  by destruct (arg_model_path a).
Qed.

(** X16.  A successful construction keeps the formatters the caller gave;
    where none was given, messages are formatted by the generic formatter
    and a completion prompt is passed on unchanged. *)
Theorem init_formatters a w self w' :
  __init__ remote max_str_digits llama_cpp_installed cache_root Llama_load
    generic_messages_to_prompt a w = (Ok self, w') →
  (∀ f, arg_messages_to_prompt a = Some f → messages_to_prompt self = f)
  ∧ (arg_messages_to_prompt a = None →
     messages_to_prompt self = generic_messages_to_prompt)
  ∧ (∀ f, arg_completion_to_prompt a = Some f → completion_to_prompt self = f)
  ∧ (arg_completion_to_prompt a = None →
     ∀ prompt, completion_to_prompt self prompt = prompt).
Proof.
  intros Hinit. rewrite (init_Ok_record a w self w' Hinit). simpl.
  repeat split.
  - by intros f ->.
  - by intros ->.
  - by intros f ->.
  - by intros ->.
Qed.

(** X17.  A construction that fails on a missing [model_path] has by then
    written [n_ctx] and [verbose] into the caller's (non-empty)
    [model_kwargs] dictionary; every other dictionary, [generate_kwargs]
    included, is as it was. *)
Theorem init_missing_path_still_updates_model_kwargs a w p lm :
  llama_cpp_installed = true →
  arg_model_path a = Some p → ¬ exists_in p w →
  arg_model_kwargs a = Some lm → deref lm w ≠ ∅ →
  let w' := (init a w).2 in
  deref lm w'
  = <["verbose" := PBool (arg_verbose a)]>
      (<["n_ctx" := PInt (arg_context_window a)]> (deref lm w))
  ∧ ∀ l, l ≠ lm → deref l w' = deref l w.
Proof.
  intros Hinst Hpath Hnone Hmk Hne. unfold __init__, import_llama_cpp.
  rewrite Hinst, bind_pass, Hmk.
  rewrite (bind_Ok _ _ _ _ _ (dict_or_new_nonempty lm w Hne)).
  rewrite (bind_Ok _ _ _ _ _ (dict_update_eq _ _ _)).
  set (w2 := with_heap _ w).
  assert (¬ exists_in p w2) as Hnone2 by done.
  rewrite (bind_Raise _ _ w2
             (ValueError
                [PStr ("Provided model path does not exist. "
                       +:+ "Please check the path or provide a model_url to download.")])
             w2).
  2: { unfold resolve_model. rewrite Hpath.
       by rewrite (bind_Ok _ _ _ _ _ (path_exists_false p w2 Hnone2)). }
  simpl. unfold deref. simpl. split.
  - by rewrite lookup_insert_eq.
  - intros l Hl. by rewrite lookup_insert_ne.
Qed.

(** X18.  After a successful construction, a later construction that
    settles on the same path downloads nothing and changes no file.  Two
    calls without [model_path] settle on the same path as soon as their URLs
    end in the same file name, so a model cached for one URL is used for the
    other. *)
Theorem init_reuses_cached_model a w self w' :
  init a w = (Ok self, w') →
  (∀ a', resolved_path cache_root a' = resolved_path cache_root a →
         net_log (init a' w').2 = net_log w'
         ∧ fs_files (init a' w').2 = fs_files w')
  ∧ (∀ a', arg_model_path a = None → arg_model_path a' = None →
           PosixPath.basename (arg_model_url a') = PosixPath.basename (arg_model_url a) →
           resolved_path cache_root a' = resolved_path cache_root a).
Proof.
  intros Hinit. split.
  - intros a' Hsame.
    destruct (init_Ok_model_path remote max_str_digits llama_cpp_installed cache_root
                Llama_load generic_messages_to_prompt a w self w' Hinit) as [_ Hex].
    rewrite <- Hsame in Hex.
    destruct (init_cached remote max_str_digits llama_cpp_installed cache_root
                Llama_load generic_messages_to_prompt a' w' Hex) as (Hn & Hf & _).
    done.
  - intros a' Ha Ha' Hname. unfold resolved_path, cached_model_path.
    by rewrite Ha, Ha', Hname.
Qed.

(** X19.  A [model_kwargs] dictionary with a ["model_path"] entry clashes
    with the [model_path] keyword when the engine is loaded: the
    construction raises [TypeError], whatever the engine would make of the
    file. *)
Theorem init_model_path_entry_raises a w p lm :
  llama_cpp_installed = true →
  arg_model_path a = Some p → exists_in p w →
  arg_model_kwargs a = Some lm → "model_path" ∈ dom (deref lm w) →
  (init a w).1
  = Raise (TypeError "got multiple values for keyword argument 'model_path'").
Proof.
  intros Hinst Hpath Hex Hmk Hkey. unfold __init__, import_llama_cpp.
  rewrite Hinst, bind_pass, Hmk.
  assert (deref lm w ≠ ∅) as Hne.
  { intros Hempty. rewrite Hempty, dom_empty_L in Hkey. by apply not_elem_of_empty in Hkey. }
  rewrite (bind_Ok _ _ _ _ _ (dict_or_new_nonempty lm w Hne)).
  rewrite (bind_Ok _ _ _ _ _ (dict_update_eq _ _ _)).
  set (w2 := with_heap _ w).
  assert (exists_in p w2) as Hex2 by done.
  rewrite (bind_Raise _ _ w2
             (TypeError "got multiple values for keyword argument 'model_path'") w2);
    [done|].
  unfold resolve_model. rewrite Hpath.
  rewrite (bind_Ok _ _ _ _ _ (path_exists_true p w2 Hex2)). simpl.
  apply bind_Raise. unfold Llama.
  rewrite bool_decide_eq_true_2; [done|].
  unfold w2, deref. simpl. rewrite lookup_insert_eq. simpl.
  rewrite !dom_insert_L. by do 2 apply elem_of_union_r.
Qed.

End ConstructionFurther.

(** ** The constructor when the model is not cached *)



Section ConstructionFetch.

Variable remote : string → result Response.
Variable max_str_digits : nat.
Variable cache_root : string.
Context {Engine : Type}.
Variable Llama_load : string → option (list byte) → kwargs → result Engine.
Variable generic_messages_to_prompt : list ChatMessage → string.

Local Abbreviation init :=
  (__init__ remote max_str_digits true cache_root Llama_load
     generic_messages_to_prompt).
Local Abbreviation resolve := (resolve_model remote max_str_digits cache_root Llama_load).

(** What is left of [resolve_model] once the directory has been made. *)
Local Abbreviation fetch url p mk :=
  (let* _ := (let* _ := _download_url remote max_str_digits url p in
              let* present := Os.path_exists p in
              if present then pass else raise AssertionError) in
   let* _model := Llama Llama_load p mk in
   ret (p%string, _model)).

(** What is left of [__init__] once the model is resolved. *)
Local Abbreviation finish a mk :=
  (λ '(model_path, _model),
     let* generate_kwargs := dict_or_new (arg_generate_kwargs a) in
     let* _ := dict_update generate_kwargs
                 [("temperature", PFloat (arg_temperature a));
                  ("max_tokens", PInt (arg_max_new_tokens a))] in
     super_init a model_path
       (default generic_messages_to_prompt (arg_messages_to_prompt a))
       (default (λ x, x) (arg_completion_to_prompt a))
       generate_kwargs mk _model).






End ConstructionFetch.

(** ** The constructor: failures of the import and of the engine *)

Section ConstructionFailures.

Variable remote : string → result Response.
Variable max_str_digits : nat.
Variable llama_cpp_installed : bool.
Variable cache_root : string.
Context {Engine : Type}.
Variable Llama_load : string → option (list byte) → kwargs → result Engine.
Variable generic_messages_to_prompt : list ChatMessage → string.

(** X22.  Without the [llama_cpp] package the constructor raises
    [ImportError] before it does anything else: no dictionary has been
    updated, no directory made, no file written and the network has not been
    asked, whatever the arguments. *)
Theorem init_without_llama_cpp_touches_nothing a w :
  llama_cpp_installed = false →
  ∃ msg,
    __init__ remote max_str_digits llama_cpp_installed cache_root Llama_load
      generic_messages_to_prompt a w = (Raise (ImportError msg), w).
Proof.
  intros ->. eexists. unfold __init__, import_llama_cpp.
  by apply bind_Raise.
Qed.

(** X23.  An existing [model_path] that the engine refuses to load: the
    engine's exception comes out of the constructor unchanged; no file
    changes and the network is not asked; of the dictionaries the caller
    holds, only the one passed as [model_kwargs] can have changed. *)
Theorem init_load_error_propagates a w p e :
  llama_cpp_installed = true →
  arg_model_path a = Some p → exists_in p w →
  (∀ lm, arg_model_kwargs a = Some lm → "model_path" ∉ dom (deref lm w)) →
  (∀ kw, Llama_load p (fs_files w !! p) kw = Raise e) →
  let out := __init__ remote max_str_digits llama_cpp_installed cache_root Llama_load
               generic_messages_to_prompt a w in
  out.1 = Raise e
  ∧ fs_files out.2 = fs_files w
  ∧ net_log out.2 = net_log w
  ∧ ∀ l, l ∈ dom (heap w) → arg_model_kwargs a ≠ Some l → deref l out.2 = deref l w.
Proof.
  intros Hinst Hpath Hex Hkey Hload. unfold __init__, import_llama_cpp.
  rewrite Hinst, bind_pass.
  destruct (dict_or_new_total (arg_model_kwargs a) w) as (mk & w1 & E1).
  pose proof (frames_dict_or_new fs_files (arg_model_kwargs a) w I) as Hfiles.
  pose proof (frames_dict_or_new fs_dirs (arg_model_kwargs a) w I) as Hdirs.
  pose proof (frames_dict_or_new net_log (arg_model_kwargs a) w I) as Hnet.
  rewrite E1 in Hfiles, Hdirs, Hnet. unfold same in Hfiles, Hdirs, Hnet.
  simpl in Hfiles, Hdirs, Hnet.
  destruct (dict_or_new_update (arg_model_kwargs a)
              [("n_ctx", PInt (arg_context_window a));
               ("verbose", PBool (arg_verbose a))] w mk w1 E1)
    as (Hmk & Hothers & _ & _ & Hwhich).
  rewrite (bind_Ok _ _ _ _ _ E1).
  rewrite (bind_Ok _ _ _ _ _ (dict_update_eq _ _ _)).
  rewrite dict_update_eq in Hmk, Hothers. simpl in Hmk, Hothers.
  set (w2 := with_heap _ w1) in *.
  assert (exists_in p w2) as Hex2.
  { destruct Hex as [Hf|Hd]; [left|right]; simpl; by rewrite ?Hfiles, ?Hdirs. }
  assert ("model_path" ∉ dom (deref mk w2)) as Hfree.
  { rewrite Hmk. simpl. rewrite !dom_insert_L.
    assert ("model_path" ∉ dom (deref mk w1)) as Hold.
    { destruct Hwhich as [(Hsome & _ & ->)|(_ & -> & _)].
      - by apply Hkey.
      - rewrite dom_empty_L. apply not_elem_of_empty. }
    intros [Hin%elem_of_singleton|[Hin%elem_of_singleton|Hin]%elem_of_union]%elem_of_union;
      done. }
  rewrite (bind_Raise _ _ w2 e w2).
  2: { unfold resolve_model. rewrite Hpath.
       rewrite (bind_Ok _ _ _ _ _ (path_exists_true p w2 Hex2)). simpl.
       apply bind_Raise. unfold Llama.
       rewrite bool_decide_eq_false_2 by done.
       change (fs_files w2) with (fs_files w1). by rewrite Hfiles, Hload. }
  simpl. split; [done|]. split; [done|]. split; [done|].
  intros l Hl Hnot. apply Hothers. intros ->.
  destruct Hwhich as [(Hsome & _)|(Hfresh & _)]; done.
Qed.

End ConstructionFailures.

(** ** The constructor on the toy machine *)

Lemma init_metadata_witness :
  let a := Toy.args "http://h/lying.bin" None None None in
  ∃ self w',
    __init__ Toy.remote 4300 true "/tmp/llama_index" Toy.Llama_load Toy.contents
      a Toy.w_cached = (Ok self, w')
    ∧ metadata self
      = {| meta_context_window := 3900;
           meta_num_output := 256;
           meta_model_name := Some "/tmp/llama_index/models/lying.bin" |}.
Proof.
  intros a. eexists _, _. split; [vm_compute; reflexivity|].
  exact (init_metadata Toy.remote 4300 true "/tmp/llama_index" Toy.Llama_load
           Toy.contents a Toy.w_cached _ _ eq_refl).
Defined.

Lemma init_formatters_witness :
  let a := Toy.args "http://h/lying.bin" None None None in
  ∃ self w',
    __init__ Toy.remote 4300 true "/tmp/llama_index" Toy.Llama_load Toy.contents
      a Toy.w_cached = (Ok self, w')
    ∧ messages_to_prompt self = Toy.contents
    ∧ ∀ prompt, completion_to_prompt self prompt = prompt.
Proof.
  intros a. eexists _, _. split; [vm_compute; reflexivity|].
  edestruct (init_formatters Toy.remote 4300 true "/tmp/llama_index" Toy.Llama_load
               Toy.contents a Toy.w_cached) as (_ & Hm & _ & Hc);
    [vm_compute; reflexivity|].
  split; [exact (Hm eq_refl)|exact (Hc eq_refl)].
Defined.

Lemma toy_cached_missing_path : ¬ exists_in "/models/missing.bin" Toy.w_cached.
Proof. intros [Hin|Hin]; revert Hin; by_decide. Qed.

Lemma toy_model_dict_nonempty : deref 1%positive Toy.w_cached ≠ ∅.
Proof. by_decide. Qed.

Lemma init_missing_path_still_updates_witness :
  let a := Toy.args DEFAULT_LLAMA_CPP_MODEL (Some "/models/missing.bin")
             (Some 3%positive) (Some 1%positive) in
  let w' := (__init__ Toy.remote 4300 true "/tmp/llama_index" Toy.Llama_load
               Toy.contents a Toy.w_cached).2 in
  deref 1%positive w'
  = <["verbose" := PBool true]> (<["n_ctx" := PInt 3900]> (deref 1%positive Toy.w_cached))
  ∧ ∀ l, l ≠ 1%positive → deref l w' = deref l Toy.w_cached.
Proof.
  intros a.
  exact (init_missing_path_still_updates_model_kwargs Toy.remote 4300 true
           "/tmp/llama_index" Toy.Llama_load Toy.contents a Toy.w_cached
           "/models/missing.bin" 1%positive
           eq_refl eq_refl toy_cached_missing_path eq_refl toy_model_dict_nonempty).
Defined.

Lemma init_reuses_cached_model_witness :
  let a := Toy.args "http://h/lying.bin" None None None in
  let a' := Toy.args "http://mirror/lying.bin" None None None in
  ∃ self w',
    __init__ Toy.remote 4300 true "/tmp/llama_index" Toy.Llama_load Toy.contents
      a Toy.w_fresh = (Ok self, w')
    ∧ net_log (__init__ Toy.remote 4300 true "/tmp/llama_index" Toy.Llama_load
                 Toy.contents a' w').2 = net_log w'
    ∧ fs_files (__init__ Toy.remote 4300 true "/tmp/llama_index" Toy.Llama_load
                  Toy.contents a' w').2 = fs_files w'.
Proof.
  intros a a'. eexists _, _. split; [vm_compute; reflexivity|].
  edestruct (init_reuses_cached_model Toy.remote 4300 true "/tmp/llama_index"
               Toy.Llama_load Toy.contents a Toy.w_fresh) as [Hskip Hsame];
    [vm_compute; reflexivity|].
  exact (Hskip a' (Hsame a' eq_refl eq_refl eq_refl)).
Defined.

Lemma toy_clash_exists : exists_in "/tmp/llama_index/models/lying.bin" ToyMore.w_clash.
Proof. left. by_decide. Qed.

Lemma toy_clash_entry : "model_path" ∈ dom (deref 1%positive ToyMore.w_clash).
Proof. by_decide. Qed.

Lemma init_model_path_entry_raises_witness :
  let a := Toy.args "http://h/lying.bin" (Some "/tmp/llama_index/models/lying.bin")
             None (Some 1%positive) in
  (__init__ Toy.remote 4300 true "/tmp/llama_index" Toy.Llama_load Toy.contents
     a ToyMore.w_clash).1
  = Raise (TypeError "got multiple values for keyword argument 'model_path'").
Proof.
  intros a.
  exact (init_model_path_entry_raises Toy.remote 4300 true "/tmp/llama_index"
           Toy.Llama_load Toy.contents a ToyMore.w_clash
           "/tmp/llama_index/models/lying.bin" 1%positive
           eq_refl eq_refl toy_clash_exists eq_refl toy_clash_entry).
Defined.









Lemma init_without_llama_cpp_witness :
  ∃ msg,
    __init__ Toy.remote 4300 false "/tmp/llama_index" Toy.Llama_load Toy.contents
      (Toy.args "http://h/lying.bin" None (Some 3%positive) (Some 1%positive))
      Toy.w_cached
    = (Raise (ImportError msg), Toy.w_cached).
Proof.
  exact (init_without_llama_cpp_touches_nothing Toy.remote 4300 false
           "/tmp/llama_index" Toy.Llama_load Toy.contents
           (Toy.args "http://h/lying.bin" None (Some 3%positive) (Some 1%positive))
           Toy.w_cached eq_refl).
Defined.

Lemma toy_cached_lying_exists :
  exists_in "/tmp/llama_index/models/lying.bin" Toy.w_cached.
Proof. left. by_decide. Qed.

Lemma toy_model_dict_no_path lm :
  Some 1%positive = Some lm → "model_path" ∉ dom (deref lm Toy.w_cached).
Proof. intros [= <-]. by_decide. Qed.

Lemma init_load_error_witness :
  let a := Toy.args "http://h/lying.bin" (Some "/tmp/llama_index/models/lying.bin")
             (Some 3%positive) (Some 1%positive) in
  let out := __init__ Toy.remote 4300 true "/tmp/llama_index"
               ToyMore.Llama_load_refusing Toy.contents a Toy.w_cached in
  out.1 = Raise (EngineError "not a model file")
  ∧ fs_files out.2 = fs_files Toy.w_cached
  ∧ net_log out.2 = net_log Toy.w_cached
  ∧ ∀ l, l ∈ dom (heap Toy.w_cached) → Some 1%positive ≠ Some l →
         deref l out.2 = deref l Toy.w_cached.
Proof.
  intros a.
  exact (init_load_error_propagates Toy.remote 4300 true "/tmp/llama_index"
           ToyMore.Llama_load_refusing Toy.contents a Toy.w_cached
           "/tmp/llama_index/models/lying.bin" (EngineError "not a model file")
           eq_refl eq_refl toy_cached_lying_exists toy_model_dict_no_path
           (λ kw, eq_refl)).
Defined.
